(** * lml.plugin: out-of-order plugin registration and lazy resolution

    A shallow embedding of [src/lml/plugin.py].  Python objects that are
    shared and mutated (the [PluginInfo] descriptors, whose [cls] slot is
    filled in lazily, and the [PluginManager] objects, whose [registry] grows)
    live in a store and are referred to by address, so that one descriptor
    indexed under several tags, or queued and later drained, stays one object.
    The two module-level dictionaries [PLUG_IN_MANAGERS] and
    [CACHED_PLUGIN_INFO] are part of the same state.  An exception leaves
    the state as it was at the [raise]. *)

From Stdlib Require Import Ascii String NArith.
From stdpp Require Import gmap strings list fin_maps.

Local Open Scope string_scope.

(** ** Strings: the three [str] methods the module uses *)

Module Str.

(** [c.lower()] on one character; the model's strings are ASCII. *)
Definition lower_ascii (c : ascii) : ascii :=
  let n := N_of_ascii c in
  if ((65 <=? n) && (n <=? 90))%N then ascii_of_N (n + 32) else c.

(** [s.lower()] *)
Fixpoint lower (s : string) : string :=
  match s with
  | EmptyString => EmptyString
  | String c r => String (lower_ascii c) (lower r)
  end.

(** [s.split('.')[0]]: everything before the first dot. *)
Fixpoint split_dot_head (s : string) : string :=
  match s with
  | EmptyString => EmptyString
  | String c r => if Ascii.eqb c "."%char then EmptyString
                  else String c (split_dot_head r)
  end.

(** [s.replace('_', '-')] *)
Fixpoint replace_underscore (s : string) : string :=
  match s with
  | EmptyString => EmptyString
  | String c r =>
      String (if Ascii.eqb c "_"%char then "-"%char else c) (replace_underscore r)
  end.

(** Truth value of a [str]: the empty string is falsy. *)
Definition truthy (s : string) : bool :=
  match s with EmptyString => false | String _ _ => true end.

(** Truth value of an optional [str] ([None] is falsy too). *)
Definition truthy_opt (o : option string) : bool :=
  match o with None => false | Some s => truthy s end.

(** ["%s" % o] *)
Definition fmt (o : option string) : string :=
  match o with None => "None" | Some s => s end.

End Str.

(** ** Data model *)

(** Python values held in [properties] and passed as keyword arguments. *)
Inductive PyVal :=
| VNone
| VBool (b : bool)
| VInt (z : Z)
| VStr (s : string).

Abbreviation keywords := (list (string * PyVal)).

(** A loaded plugin class: what the module reads from it is
    [cls.__module__] and [cls.__name__]. *)
Record Handle := mkHandle {
  __module__ : string;
  __name__ : string
}.

#[global] Instance Handle_eq_dec : EqDecision Handle.
Proof. solve_decision. Defined.

(** [PluginInfo.__init__] stores exactly these five attributes. *)
Record PluginInfo := mkPluginInfo {
  plugin_type : string;
  absolute_import_path : option string;
  cls : option Handle;
  properties : keywords;
  __tags : option (list string)
}.

(** Addresses of descriptor objects and of manager objects. *)
Abbreviation info_ref := nat (only parsing).
Abbreviation manager_ref := nat (only parsing).

(** A [PluginManager]: [registry] is a [defaultdict(list)] keyed by the
    lower-cased tag; its lists hold references to descriptor objects. *)
Record PluginManager := mkPluginManager {
  plugin_name : string;
  registry : gmap string (list nat)
}.

(** The exceptions the module can raise or let through. *)
Inductive exn :=
| Exception (msg : string)      (* [raise Exception(msg)] *)
| TypeError                     (* [str + None] *)
| AttributeError                (* [None.__module__], [None.__name__] *)
| Unresolvable (cause : string) (* raised inside [do_import_class] *)
| ConstructorError (cause : string). (* raised inside [plugin()] *)

(** The class of an exception object: what an [except] clause can tell
    apart. *)
Inductive exn_kind :=
| KException | KTypeError | KAttributeError | KUnresolvable | KConstructorError.

Definition kind_of (e : exn) : exn_kind :=
  match e with
  | Exception _ => KException
  | TypeError => KTypeError
  | AttributeError => KAttributeError
  | Unresolvable _ => KUnresolvable
  | ConstructorError _ => KConstructorError
  end.

#[global] Instance exn_kind_eq_dec : EqDecision exn_kind.
Proof. solve_decision. Defined.

(** The whole mutable state: both object stores, the two module-level
    dictionaries, and the log of calls made to the class loader. *)
Record World := mkWorld {
  infos : list PluginInfo;
  managers : list PluginManager;
  PLUG_IN_MANAGERS : gmap string nat;
  CACHED_PLUGIN_INFO : gmap string (list nat);
  imported : list string
}.

Definition empty_world : World :=
  {| infos := []; managers := []; PLUG_IN_MANAGERS := ∅;
     CACHED_PLUGIN_INFO := ∅; imported := [] |}.

(** ** State-and-exception monad *)

(** [Dangling] is the outcome of following a reference to an object that
    was never allocated; no Python execution produces it. *)
Inductive outcome (A : Type) :=
| Ret (a : A)
| Raise (e : exn)
| Dangling.
Arguments Ret {A} a.
Arguments Raise {A} e.
Arguments Dangling {A}.

Definition M (A : Type) : Type := World → outcome A * World.

Definition raise {A} (e : exn) : M A := λ w, (Raise e, w).

#[global] Instance M_ret : MRet M := λ A a w, (Ret a, w).
#[global] Instance M_bind : MBind M := λ A B k c w,
  match c w with
  | (Ret a, w') => k a w'
  | (Raise e, w') => (Raise e, w')
  | (Dangling, w') => (Dangling, w')
  end.

(** Lifting of a pure, fallible expression. *)
Definition lift {A} (r : exn + A) : M A :=
  match r with inl e => raise e | inr a => mret a end.

(** *** Store access *)

Definition get_info (a : nat) : M PluginInfo :=
  λ w, match infos w !! a with
       | Some d => (Ret d, w)
       | None => (Dangling, w)
       end.

Definition get_manager (m : nat) : M PluginManager :=
  λ w, match managers w !! m with
       | Some mg => (Ret mg, w)
       | None => (Dangling, w)
       end.

Definition with_cls (h : Handle) (d : PluginInfo) : PluginInfo :=
  {| plugin_type := plugin_type d;
     absolute_import_path := absolute_import_path d;
     cls := Some h;
     properties := properties d;
     __tags := __tags d |}.

Definition with_infos (f : list PluginInfo → list PluginInfo)
    (w : World) : World :=
  {| infos := f (infos w); managers := managers w;
     PLUG_IN_MANAGERS := PLUG_IN_MANAGERS w;
     CACHED_PLUGIN_INFO := CACHED_PLUGIN_INFO w; imported := imported w |}.

Definition with_managers (f : list PluginManager → list PluginManager)
    (w : World) : World :=
  {| infos := infos w; managers := f (managers w);
     PLUG_IN_MANAGERS := PLUG_IN_MANAGERS w;
     CACHED_PLUGIN_INFO := CACHED_PLUGIN_INFO w; imported := imported w |}.

Definition with_directory (f : gmap string nat → gmap string nat)
    (w : World) : World :=
  {| infos := infos w; managers := managers w;
     PLUG_IN_MANAGERS := f (PLUG_IN_MANAGERS w);
     CACHED_PLUGIN_INFO := CACHED_PLUGIN_INFO w; imported := imported w |}.

Definition with_cached (f : gmap string (list nat) → gmap string (list nat))
    (w : World) : World :=
  {| infos := infos w; managers := managers w;
     PLUG_IN_MANAGERS := PLUG_IN_MANAGERS w;
     CACHED_PLUGIN_INFO := f (CACHED_PLUGIN_INFO w); imported := imported w |}.

Definition with_imported (f : list string → list string) (w : World) : World :=
  {| infos := infos w; managers := managers w;
     PLUG_IN_MANAGERS := PLUG_IN_MANAGERS w;
     CACHED_PLUGIN_INFO := CACHED_PLUGIN_INFO w; imported := f (imported w) |}.

Definition modify (f : World → World) : M unit := λ w, (Ret tt, f w).

(** [a.cls = h] *)
Definition set_cls (a : nat) (h : Handle) : M unit :=
  d ← get_info a;
  modify (with_infos (λ l, <[a := with_cls h d]> l)).

(** [d[key].append(x)] on a [defaultdict(list)] *)
Definition dd_append (key : string) (x : nat) (d : gmap string (list nat))
  : gmap string (list nat) :=
  <[key := (default [] (d !! key) ++ [x])%list]> d.

Definition with_registry (f : gmap string (list nat) → gmap string (list nat))
    (mg : PluginManager) : PluginManager :=
  {| plugin_name := plugin_name mg; registry := f (registry mg) |}.

(** [m.registry[key].append(a)] *)
Definition registry_append (m : nat) (key : string) (a : nat) : M unit :=
  mg ← get_manager m;
  modify (with_managers (λ l, <[m := with_registry (dd_append key a) mg]> l)).

Definition get_world : M World := λ w, (Ret w, w).

(** ** The module *)

(** [_get_me_pypi_package_name(module_name)] *)
Definition _get_me_pypi_package_name (module_name : string) : string :=
  let root_module_name := Str.split_dot_head module_name in
  Str.replace_underscore root_module_name.

(** *** [PluginInfo] *)

(** [PluginInfo(plugin_type, abs_class_path, tags, **keywords)]: a new
    object, [cls] unset. *)
Definition PluginInfo_init (ptype : string) (abs_class_path : option string)
    (tags : option (list string)) (kw : keywords) : M nat :=
  w ← get_world;
  modify (with_infos (λ l, l ++ [ {| plugin_type := ptype;
                                     absolute_import_path := abs_class_path;
                                     cls := None;
                                     properties := kw;
                                     __tags := tags |} ])%list);;
  mret (length (infos w)).

(** [info.module_name], served by [__getattr__]. *)
Definition module_name (d : PluginInfo) : exn + string :=
  if Str.truthy_opt (absolute_import_path d)
  then inr (Str.split_dot_head (Str.fmt (absolute_import_path d)))
  else match cls d with
       | Some c => inr (__module__ c)
       | None => inl AttributeError
       end.

(** Any other attribute: [self.properties.get(name)]. *)
Definition getattr_property (d : PluginInfo) (name : string) : option PyVal :=
  snd <$> List.find (λ kv, String.eqb (fst kv) name) (properties d).

(** [name in keywords] *)
Definition has_key (name : string) (kw : keywords) : bool :=
  existsb (λ kv, String.eqb (fst kv) name) kw.

(** [info.tags()]: the strings the generator yields, in order. *)
Definition tags (d : PluginInfo) : list string :=
  match __tags d with
  | None => [plugin_type d]
  | Some ts => ts
  end.

Section Plugin.

(** The two collaborators the module calls but does not define:
    [lml.utils.do_import_class], and the constructor of a plugin class
    (called with the given keyword arguments). *)
Context {PluginObject : Type}.
Variable do_import_class : string → string + Handle.
Variable construct : Handle → keywords → string + PluginObject.

(** A call of [do_import_class(path)]: logged, then the class or the
    loader's own exception. *)
Definition import_class (path : string) : M Handle :=
  modify (with_imported (λ l, l ++ [path])%list);;
  match do_import_class path with
  | inl cause => raise (Unresolvable cause)
  | inr c => mret c
  end.

(** A call of the class [plugin] with keyword arguments [kw]. *)
Definition call_class (plugin : Handle) (kw : keywords) : M PluginObject :=
  match construct plugin kw with
  | inl cause => raise (ConstructorError cause)
  | inr i => mret i
  end.

(** *** [PluginManager] *)

(** [raise_exception(key)]: always raises. *)
Definition raise_exception {A} (self : nat) (key : string) : M A :=
  mg ← get_manager self;
  raise (Exception ("No " +:+ plugin_name mg +:+ " is found for " +:+ key)).

(** The loop of [load_me_later]:
    [for key in tags: self.registry[key.lower()].append(plugin_info)]. *)
Fixpoint load_me_later_loop (self a : nat) (ts : list string) : M unit :=
  match ts with
  | [] => mret tt
  | key :: rest =>
      registry_append self (Str.lower key) a;;
      load_me_later_loop self a rest
  end.

(** [load_me_later(plugin_info)].  The first logging call evaluates
    [plugin_info.module_name]. *)
Definition load_me_later (self a : nat) : M unit :=
  d ← get_info a;
  _ ← lift (module_name d);
  load_me_later_loop self a (tags d).

(** [dynamic_load_library(a_plugin_info)].  The logging call evaluates
    ["import " + absolute_import_path]. *)
Definition dynamic_load_library (self a : nat) : M Handle :=
  d ← get_info a;
  match cls d with
  | None =>
      match absolute_import_path d with
      | None => raise TypeError
      | Some path =>
          c ← import_class path;
          set_cls a c;;
          mret c
      end
  | Some c => mret c
  end.

(** [library and module_name != library] *)
Definition library_mismatch (library : option string) (module_name : string) : bool :=
  match library with
  | None => false
  | Some lib => Str.truthy lib && negb (String.eqb module_name lib)
  end.

(** The [for ... else] of [load_me_now] over the list found under the key. *)
Fixpoint load_me_now_loop (self : nat) (library : option string) (l : list nat)
  : M Handle :=
  match l with
  | [] => raise (Exception (Str.fmt library +:+ " is not installed"))
  | plugin_info :: rest =>
      c ← dynamic_load_library self plugin_info;
      let module_name := _get_me_pypi_package_name (__module__ c) in
      if library_mismatch library module_name
      then load_me_now_loop self library rest
      else mret c
  end.

(** [load_me_now(key, library=None, **keywords)] *)
Definition load_me_now (self : nat) (key : string) (library : option string)
    (kw : keywords) : M Handle :=
  mg ← get_manager self;
  let __key := Str.lower key in
  match registry mg !! __key with
  | Some l => load_me_now_loop self library l
  | None => raise_exception self key
  end.

(** [get_a_plugin(key, **keywords)] *)
Definition get_a_plugin (self : nat) (key : string) (kw : keywords) : M PluginObject :=
  plugin ← load_me_now self key None [];
  call_class plugin [].

(** The loop of [register_a_plugin]. *)
Fixpoint register_a_plugin_loop (self : nat) (plugin_cls : Handle) (a : nat)
    (ts : list string) : M unit :=
  match ts with
  | [] => mret tt
  | key :: rest =>
      set_cls a plugin_cls;;
      registry_append self (Str.lower key) a;;
      register_a_plugin_loop self plugin_cls a rest
  end.

(** [register_a_plugin(plugin_cls, plugin_info)] *)
Definition register_a_plugin (self : nat) (plugin_cls : Handle) (a : nat) : M unit :=
  d ← get_info a;
  register_a_plugin_loop self plugin_cls a (tags d).

(** *** Module-level functions *)

(** The logging inside the loop of [_register_class]: it reads
    [plugin_info.cls.__name__] when the path is falsy. *)
Definition log_cached (d : PluginInfo) : exn + unit :=
  if Str.truthy_opt (absolute_import_path d) then inr tt
  else match cls d with
       | Some _ => inr tt
       | None => inl AttributeError
       end.

(** The loop of [_register_class] over the queued descriptors. *)
Fixpoint _register_class_loop (self : nat) (l : list nat) : M unit :=
  match l with
  | [] => mret tt
  | plugin_info :: rest =>
      d ← get_info plugin_info;
      _ ← lift (log_cached d);
      load_me_later self plugin_info;;
      _register_class_loop self rest
  end.

(** [_register_class(cls)] *)
Definition _register_class (self : nat) : M unit :=
  mg ← get_manager self;
  modify (with_directory (λ d, <[plugin_name mg := self]> d));;
  w ← get_world;
  match CACHED_PLUGIN_INFO w !! plugin_name mg with
  | Some l =>
      _register_class_loop self l;;
      modify (with_cached (λ c, delete (plugin_name mg) c))
  | None => mret tt
  end.

(** [PluginManager(plugin_type)]: a new object with an empty registry,
    registered at once. *)
Definition PluginManager_init (ptype : string) : M nat :=
  w ← get_world;
  let self := length (managers w) in
  modify (with_managers
            (λ l, l ++ [ {| plugin_name := ptype; registry := ∅ |} ])%list);;
  _register_class self;;
  mret self.

(** [_register_a_plugin(plugin_info, plugin_cls)] *)
Definition _register_a_plugin (a : nat) (plugin_cls : Handle) : M unit :=
  d ← get_info a;
  w ← get_world;
  match PLUG_IN_MANAGERS w !! plugin_type d with
  | Some manager => register_a_plugin manager plugin_cls a
  | None => modify (with_cached (dd_append (plugin_type d) a))
  end.

(** [_load_me_later(plugin_info)].  The logging call of the caching branch
    evaluates ["caching " + absolute_import_path]. *)
Definition _load_me_later (a : nat) : M unit :=
  d ← get_info a;
  w ← get_world;
  match PLUG_IN_MANAGERS w !! plugin_type d with
  | Some manager => load_me_later manager a
  | None =>
      match absolute_import_path d with
      | None => raise TypeError
      | Some _ => modify (with_cached (dd_append (plugin_type d) a))
      end
  end.

(** [PluginInfo.__call__(cls)]: the decorator. *)
Definition PluginInfo_call (a : nat) (c : Handle) : M Handle :=
  set_cls a c;;
  _register_a_plugin a c;;
  mret c.

(** *** [PluginInfoChain]; the chain object is its [module_name]. *)

(** [_get_abs_path(submodule)]: ["%s.%s" % (self.module_name, submodule)] *)
Definition _get_abs_path (chain : string) (submodule : option string) : string :=
  chain +:+ "." +:+ Str.fmt submodule.

(** [add_a_plugin_instance(plugin_info_instance)] *)
Definition add_a_plugin_instance (chain : string) (a : nat) : M string :=
  _load_me_later a;;
  mret chain.

(** [add_a_plugin(plugin_type, submodule=None, **keywords)].  Of the
    keywords of the call, [tags] is the [tags] keyword, which reaches the
    [tags] parameter of [PluginInfo], and [kw] holds the others.  An
    [abs_class_path] keyword collides with the path that
    [PluginInfo(plugin_type, path, **keywords)] passes by position: that
    call raises [TypeError] before any object is made. *)
Definition add_a_plugin (chain : string) (ptype : string) (submodule : option string)
    (tags : option (list string)) (kw : keywords) : M string :=
  if has_key "abs_class_path" kw then raise TypeError
  else
    a_plugin_info ←
      PluginInfo_init ptype (Some (_get_abs_path chain submodule)) tags kw;
    add_a_plugin_instance chain a_plugin_info;;
    mret chain.

End Plugin.

(** ** Vocabulary of the statements *)

(** The package a loaded class comes from, as [load_me_now] computes it. *)
Definition package_of (c : Handle) : string :=
  _get_me_pypi_package_name (__module__ c).

(** Descriptor [a] carries the loaded class [c]. *)
Definition resolved_in (w : World) (a : nat) (c : Handle) : Prop :=
  ∃ d, infos w !! a = Some d ∧ cls d = Some c.

(** Descriptor [a] is path-based and not loaded yet. *)
Definition unresolved_in (w : World) (a : nat) (path : string) : Prop :=
  ∃ d, infos w !! a = Some d ∧ cls d = None ∧ absolute_import_path d = Some path.

(** The class lazy loading yields for descriptor [a]: the one it carries,
    or the one the loader returns for its path. *)
Definition resolves_to (loader : string → string + Handle)
    (w : World) (a : nat) (c : Handle) : Prop :=
  resolved_in w a c ∨ ∃ path, unresolved_in w a path ∧ loader path = inr c.

(** Descriptor [b] resolves to a class of a package other than [lib]. *)
Definition of_other_package (loader : string → string + Handle)
    (w : World) (lib : string) (b : nat) : Prop :=
  ∃ cb, resolves_to loader w b cb ∧ package_of cb ≠ lib.

(** The loader calls made between two states. *)
Definition new_imports (w w' : World) : list string :=
  drop (length (imported w)) (imported w').

(** Between [w] and [w'] descriptor [a] came to carry [c], and if it was
    unloaded in [w] the loader was called on its path and returned [c]. *)
Definition loaded_between (loader : string → string + Handle)
    (w w' : World) (a : nat) (c : Handle) : Prop :=
  resolved_in w' a c ∧
  ∀ path, unresolved_in w a path → loader path = inr c ∧ path ∈ new_imports w w'.

(** The list a registry holds under a key (empty when the key is absent). *)
Definition registered (reg : gmap string (list nat)) (key : string) : list nat :=
  default [] (reg !! key).

(** A descriptor with a non-empty import path or a class: one on which
    no logging expression of the module raises. *)
Definition valid_info (d : PluginInfo) : bool :=
  Str.truthy_opt (absolute_import_path d) || bool_decide (is_Some (cls d)).

(** The references [load_me_later] appends under [key] for descriptor [a]:
    one per tag of [a] that lower-cases to [key]. *)
Definition entries_for (w : World) (key : string) (a : nat) : list nat :=
  match infos w !! a with
  | Some d => const a <$> filter (λ t, Str.lower t = key) (tags d)
  | None => []
  end.

(** The same for a queue of descriptors, in queue order. *)
Definition index_of (w : World) (key : string) (l : list nat) : list nat :=
  l ≫= entries_for w key.

(** No key of the registry holds an empty list: a key present is a tag
    under which some descriptor was indexed. *)
Definition nonempty_lists (reg : gmap string (list nat)) : Prop :=
  ∀ k l, reg !! k = Some l → l ≠ [].

(** The registry after indexing descriptor [a] under the tags [ts]. *)
Definition indexed (a : nat) (ts : list string) (reg : gmap string (list nat))
  : gmap string (list nat) :=
  foldl (λ r t, dd_append (Str.lower t) a r) reg ts.

(** Every run of [c], whatever its outcome, takes a state to one related
    to it by [R]. *)
Definition steps {A} (R : World → World → Prop) (c : M A) : Prop :=
  ∀ w r w', c w = (r, w') → R w w'.

(** What a descriptor was declared with, which no operation changes; a
    class, once there, stays (it may be replaced by another). *)
Definition same_declaration (d d' : PluginInfo) : Prop :=
  plugin_type d' = plugin_type d ∧
  absolute_import_path d' = absolute_import_path d ∧
  properties d' = properties d ∧
  __tags d' = __tags d ∧
  (is_Some (cls d) → is_Some (cls d')).

(** The state only grows: descriptors and managers stay where they are,
    descriptors keep their declaration, the list under each key of each
    registry is extended at its end, no type leaves the directory and the
    log of loader calls is extended. *)
Definition grows (w w' : World) : Prop :=
  (∀ a d, infos w !! a = Some d →
          ∃ d', infos w' !! a = Some d' ∧ same_declaration d d') ∧
  (∀ m mg, managers w !! m = Some mg →
           ∃ mg', managers w' !! m = Some mg' ∧
                  plugin_name mg' = plugin_name mg ∧
                  ∀ k, registered (registry mg) k `prefix_of`
                       registered (registry mg') k) ∧
  (∀ t, is_Some (PLUG_IN_MANAGERS w !! t) → is_Some (PLUG_IN_MANAGERS w' !! t)) ∧
  imported w `prefix_of` imported w'.

(** No registry of any manager holds an empty list. *)
Definition registries_ok (w : World) : Prop :=
  ∀ m mg, managers w !! m = Some mg → nonempty_lists (registry mg).

(** A type that has a manager has no pending list. *)
Definition directory_ok (w : World) : Prop :=
  ∀ t, is_Some (PLUG_IN_MANAGERS w !! t) → CACHED_PLUGIN_INFO w !! t = None.

(** [P] holds after whenever it held before. *)
Definition keeps (P : World → Prop) (w w' : World) : Prop := P w → P w'.

(** The two module-level dictionaries are the same. *)
Definition same_directory (w w' : World) : Prop :=
  PLUG_IN_MANAGERS w' = PLUG_IN_MANAGERS w ∧
  CACHED_PLUGIN_INFO w' = CACHED_PLUGIN_INFO w.

(** Character [c] occurs in [s]. *)
Fixpoint has_char (c : ascii) (s : string) : bool :=
  match s with
  | EmptyString => false
  | String x r => Ascii.eqb x c || has_char c r
  end.

(** [getInstance] as the specification words it: the class found by
    [load_me_now(key)] is called with the keyword arguments of the call. *)
Definition getInstance_forwarding {PluginObject : Type}
    (loader : string → string + Handle)
    (construct : Handle → keywords → string + PluginObject)
    (self : nat) (key : string) (kw : keywords) : M PluginObject :=
  plugin ← load_me_now loader self key None [];
  call_class construct plugin kw.

(** ** A concrete scenario

    Two packages provide a reader for the tag [xml]; the first is declared
    before the manager exists, the second after. *)

Module Scenario.

Definition loader (path : string) : string + Handle :=
  if String.eqb path "a_xml.reader.Reader"
  then inr {| __module__ := "a_xml.reader"; __name__ := "Reader" |}
  else if String.eqb path "b_xml.Reader"
  then inr {| __module__ := "b_xml"; __name__ := "Reader" |}
  else inl ("No module named " +:+ path).

(** An instance remembers its class and the keyword arguments it was
    built with. *)
Definition ctor (c : Handle) (kw : keywords) : string + (Handle * keywords) :=
  inr (c, kw).

Definition class_a : Handle := {| __module__ := "a_xml.reader"; __name__ := "Reader" |}.
Definition class_b : Handle := {| __module__ := "b_xml"; __name__ := "Reader" |}.

(** Descriptor 0 is queued, manager 0 is created and drains it, then
    descriptor 1 is declared. *)
Definition setup : M nat :=
  a ← PluginInfo_init "reader" (Some "a_xml.reader.Reader") (Some ["XML"]) [];
  _load_me_later a;;
  m ← PluginManager_init "reader";
  b ← PluginInfo_init "reader" (Some "b_xml.Reader") (Some ["xml"]) [];
  _load_me_later b;;
  mret m.

Definition world : World := Eval vm_compute in snd (setup empty_world).


(** The state after a failed lookup of [xml] restricted to a package
    nobody provides: both descriptors have been loaded. *)
Definition scanned_world : World :=
  Eval vm_compute in
    snd (load_me_now loader 0 "xml" (Some "c-xml") [] world).

(** A manager, then a descriptor declared without tags. *)
Definition untagged_world : World :=
  Eval vm_compute in
    snd ((m ← PluginManager_init "reader";
          PluginInfo_init "reader" (Some "a_xml.reader.Reader") None [])
           empty_world).

(** A manager, then a descriptor declared through the chain builder with
    an empty tag sequence. *)
Definition empty_tags_world : World :=
  Eval vm_compute in
    snd ((m ← PluginManager_init "reader";
          add_a_plugin "a_xml" "reader" (Some "reader.Reader") (Some []) [])
           empty_world).

Definition untagged : PluginInfo :=
  {| plugin_type := "reader";
     absolute_import_path := Some "a_xml.reader.Reader";
     cls := None; properties := []; __tags := None |}.

Definition empty_tagged : PluginInfo :=
  {| plugin_type := "reader";
     absolute_import_path := Some "a_xml.reader.Reader";
     cls := None; properties := []; __tags := Some [] |}.

(** The two descriptors of [world], as declared. *)
Definition first : PluginInfo :=
  {| plugin_type := "reader";
     absolute_import_path := Some "a_xml.reader.Reader";
     cls := None; properties := []; __tags := Some ["XML"] |}.

Definition second : PluginInfo :=
  {| plugin_type := "reader";
     absolute_import_path := Some "b_xml.Reader";
     cls := None; properties := []; __tags := Some ["xml"] |}.

(** The manager object of [world]. *)
Definition manager : PluginManager :=
  Eval vm_compute in
    default {| plugin_name := ""; registry := ∅ |} (managers world !! 0).

(** The manager object of [untagged_world] and [empty_tags_world]. *)
Definition fresh_manager : PluginManager :=
  {| plugin_name := "reader"; registry := ∅ |}.

(** A descriptor declared without tags; no manager, nothing pending. *)
Definition declared_world : World :=
  Eval vm_compute in
    snd (PluginInfo_init "reader" (Some "a_xml.reader.Reader") None [] empty_world).

(** A descriptor with an empty path and no class, pending. *)
Definition invalid_pending : PluginInfo :=
  {| plugin_type := "reader"; absolute_import_path := Some "";
     cls := None; properties := []; __tags := None |}.

Definition invalid_pending_world : World :=
  Eval vm_compute in
    snd ((a ← PluginInfo_init "reader" (Some "") None [];
          _load_me_later a) empty_world).

(** A manager and a declaration whose path the loader does not know. *)
Definition broken : PluginInfo :=
  {| plugin_type := "reader"; absolute_import_path := Some "c_xml.Reader";
     cls := None; properties := []; __tags := Some ["yaml"] |}.

Definition broken_world : World :=
  Eval vm_compute in
    snd ((m ← PluginManager_init "reader";
          add_a_plugin "c_xml" "reader" (Some "Reader") (Some ["yaml"]) [])
           empty_world).

Definition broken_manager : PluginManager :=
  Eval vm_compute in
    default {| plugin_name := ""; registry := ∅ |} (managers broken_world !! 0).

(** A manager, then a descriptor with an empty path and no class. *)
Definition invalid_managed_world : World :=
  Eval vm_compute in
    snd ((m ← PluginManager_init "reader";
          PluginInfo_init "reader" (Some "") None []) empty_world).

End Scenario.

#[global] Arguments library_mismatch : simpl never.
#[global] Arguments load_me_later : simpl never.
#[global] Arguments registry_append : simpl never.
#[global] Arguments dynamic_load_library : simpl never.


Ltac munfold :=
  unfold mbind, M_bind, mret, M_ret, raise, modify, get_world, get_info,
    get_manager, lift in *.

Section PluginFacts.

Context {PluginObject : Type}.
Variable do_import_class : string → string + Handle.
Variable construct : Handle → keywords → string + PluginObject.


(** ** Basic facts about the embedding *)

Lemma valid_info_module_name d :
  valid_info d = true → ∃ s, module_name d = inr s.
Proof.
  unfold valid_info, module_name. intros Hv.
  destruct (Str.truthy_opt (absolute_import_path d)); [by eexists|].
  simpl in Hv. apply bool_decide_eq_true in Hv as [c Hc].
  rewrite Hc. by eexists.
Qed.

Lemma valid_info_log_cached d :
  valid_info d = true → log_cached d = inr tt.
Proof.
  unfold valid_info, log_cached. intros Hv.
  destruct (Str.truthy_opt (absolute_import_path d)); [done|].
  simpl in Hv. apply bool_decide_eq_true in Hv as [c Hc].
  by rewrite Hc.
Qed.

Lemma library_mismatch_true lib s :
  library_mismatch (Some lib) s = true → Str.truthy lib = true ∧ s ≠ lib.
Proof.
  unfold library_mismatch. intros H. apply andb_true_iff in H as [Ht Hne].
  split; [done|]. intros ->. by rewrite String.eqb_refl in Hne.
Qed.

Lemma library_mismatch_false lib s :
  library_mismatch (Some lib) s = false → Str.truthy lib = true → s = lib.
Proof.
  unfold library_mismatch. intros H Ht. rewrite Ht in H. simpl in H.
  apply negb_false_iff in H. by apply String.eqb_eq.
Qed.

Lemma library_mismatch_falsy library s :
  Str.truthy_opt library = false → library_mismatch library s = false.
Proof.
  unfold library_mismatch. destruct library as [lib|]; [|done].
  simpl. by intros ->.
Qed.

Lemma library_mismatch_None s : library_mismatch None s = false.
Proof. done. Qed.

Lemma library_mismatch_Some lib s :
  Str.truthy lib = true →
  library_mismatch (Some lib) s = negb (bool_decide (s = lib)).
Proof.
  intros Ht. unfold library_mismatch. rewrite Ht. simpl. f_equal.
  destruct (String.eqb_spec s lib) as [->|Hne].
  - by rewrite bool_decide_eq_true_2.
  - by rewrite bool_decide_eq_false_2.
Qed.

(** The loader calls made over two consecutive runs are those of the
    first followed by those of the second. *)
Lemma new_imports_app w w1 w' n1 :
  imported w1 = (imported w ++ n1)%list →
  imported w' = (imported w1 ++ new_imports w1 w')%list →
  new_imports w w' = (n1 ++ new_imports w1 w')%list ∧
  imported w' = (imported w ++ new_imports w w')%list.
Proof.
  intros H1 H2.
  assert (Heq : new_imports w w' = (n1 ++ new_imports w1 w')%list).
  { unfold new_imports at 1. rewrite H2, H1, <- app_assoc.
    by rewrite drop_app_length. }
  split; [done|]. rewrite Heq, app_assoc, <- H1. done.
Qed.

Lemma new_imports_refl w : new_imports w w = [].
Proof. unfold new_imports. by rewrite drop_all. Qed.

Lemma new_imports_one w w1 n1 :
  imported w1 = (imported w ++ n1)%list → new_imports w w1 = n1.
Proof. intros H1. unfold new_imports. by rewrite H1, drop_app_length. Qed.


(** *** Lazy loading of one descriptor *)

(** What [dynamic_load_library] does, case by case. *)
Lemma dynamic_load_library_eq self a w d :
  infos w !! a = Some d →
  dynamic_load_library do_import_class self a w =
    match cls d with
    | Some c => (Ret c, w)
    | None =>
        match absolute_import_path d with
        | None => (Raise TypeError, w)
        | Some p =>
            let w1 := with_imported (λ l, l ++ [p])%list w in
            match do_import_class p with
            | inl cause => (Raise (Unresolvable cause), w1)
            | inr c => (Ret c, with_infos (λ l, <[a := with_cls c d]> l) w1)
            end
        end
    end.
Proof.
  intros Ha. unfold dynamic_load_library, import_class, set_cls. munfold.
  rewrite Ha. destruct (cls d) as [c|]; [done|].
  destruct (absolute_import_path d) as [p|]; [|done].
  simpl. destruct (do_import_class p) as [cause|c]; [done|].
  simpl. by rewrite Ha.
Qed.

Lemma dynamic_load_library_dangling self a w :
  infos w !! a = None → dynamic_load_library do_import_class self a w = (Dangling, w).
Proof.
  intros Ha. unfold dynamic_load_library. munfold. by rewrite Ha.
Qed.

(** Loading touches neither the managers nor the two directories; the
    store of descriptors keeps its size and changes at [a] only, and the
    log of loader calls grows by at most one entry. *)
Lemma dynamic_load_library_frame self a w r w' :
  dynamic_load_library do_import_class self a w = (r, w') →
  managers w' = managers w ∧
  PLUG_IN_MANAGERS w' = PLUG_IN_MANAGERS w ∧
  CACHED_PLUGIN_INFO w' = CACHED_PLUGIN_INFO w ∧
  (∀ b, b ≠ a → infos w' !! b = infos w !! b) ∧
  (∃ new, imported w' = (imported w ++ new)%list ∧ (length new ≤ 1)%nat).
Proof.
  intros Hrun. destruct (infos w !! a) as [d|] eqn:Ha.
  - rewrite (dynamic_load_library_eq _ _ _ d Ha) in Hrun.
    destruct (cls d) as [c|].
    { inversion Hrun; subst. repeat split; try done.
      exists []. by rewrite app_nil_r; simpl; split; [|lia]. }
    destruct (absolute_import_path d) as [p|].
    2:{ inversion Hrun; subst. repeat split; try done.
        exists []. by rewrite app_nil_r; simpl; split; [|lia]. }
    simpl in Hrun. destruct (do_import_class p) as [cause|c];
      inversion Hrun; subst; simpl; repeat split; try done.
    + by exists [p].
    + intros b Hb. by rewrite list_lookup_insert_ne.
    + by exists [p].
  - rewrite (dynamic_load_library_dangling _ _ _ Ha) in Hrun.
    inversion Hrun; subst. repeat split; try done.
    exists []. by rewrite app_nil_r; simpl; split; [|lia].
Qed.

(** A returned class is the one the descriptor carries afterwards. *)
Lemma dynamic_load_library_resolved self a w c w' :
  dynamic_load_library do_import_class self a w = (Ret c, w') → resolved_in w' a c.
Proof.
  intros Hrun. destruct (infos w !! a) as [d|] eqn:Ha.
  - rewrite (dynamic_load_library_eq _ _ _ d Ha) in Hrun.
    destruct (cls d) as [c0|] eqn:Hc.
    { inversion Hrun; subst. by exists d. }
    destruct (absolute_import_path d) as [p|]; [|done].
    simpl in Hrun. destruct (do_import_class p) as [cause|c0]; [done|].
    inversion Hrun; subst. exists (with_cls c d). split; [|done].
    simpl. apply list_lookup_insert_eq. by eapply lookup_lt_Some.
  - by rewrite (dynamic_load_library_dangling _ _ _ Ha) in Hrun.
Qed.

(** Once a descriptor carries a class, loading any descriptor keeps it. *)
Lemma dynamic_load_library_mono self b w r w' a c :
  dynamic_load_library do_import_class self b w = (r, w') →
  resolved_in w a c → resolved_in w' a c.
Proof.
  intros Hrun (d & Ha & Hc). destruct (decide (a = b)) as [->|Hne].
  - rewrite (dynamic_load_library_eq _ _ _ d Ha), Hc in Hrun.
    inversion Hrun; subst. by exists d.
  - destruct (dynamic_load_library_frame _ _ _ _ _ Hrun) as (_ & _ & _ & Hi & _).
    exists d. by rewrite Hi.
Qed.

Lemma resolved_in_inj w a c c' :
  resolved_in w a c → resolved_in w a c' → c = c'.
Proof. intros (d & Hd & Hc) (d' & Hd' & Hc'). congruence. Qed.

(** Lazy loading returns the class the descriptor resolves to. *)
Lemma resolves_to_load self a w c :
  resolves_to do_import_class w a c →
  ∃ w1, dynamic_load_library do_import_class self a w = (Ret c, w1).
Proof.
  intros [(d & Ha & Hc)|(path & (d & Ha & Hc & Hp) & Hload)];
    rewrite (dynamic_load_library_eq _ _ _ d Ha), Hc.
  - by eexists.
  - rewrite Hp. simpl. rewrite Hload. by eexists.
Qed.

(** What a descriptor resolves to is not changed by loading another one,
    nor by loading itself. *)
Lemma resolves_to_mono self b w r w1 a c :
  dynamic_load_library do_import_class self b w = (r, w1) →
  resolves_to do_import_class w a c → resolves_to do_import_class w1 a c.
Proof.
  intros Hrun [Hres|(path & (d & Ha & Hc & Hp) & Hload)].
  - left. by eapply dynamic_load_library_mono.
  - destruct (decide (a = b)) as [->|Hne].
    + left. rewrite (dynamic_load_library_eq _ _ _ d Ha), Hc, Hp in Hrun.
      simpl in Hrun. rewrite Hload in Hrun. inversion Hrun; subst.
      exists (with_cls c d). split; [|done]. simpl.
      apply list_lookup_insert_eq. by eapply lookup_lt_Some.
    + right. exists path. split; [|done]. exists d.
      destruct (dynamic_load_library_frame _ _ _ _ _ Hrun) as (_ & _ & _ & Hi & _).
      by rewrite Hi.
Qed.


(** *** The scan of [load_me_now] *)

(** The scan leaves the managers and both directories alone, keeps every
    loaded class in place and only appends to the log of loader calls. *)
Lemma load_me_now_loop_frame self library l w r w' :
  load_me_now_loop do_import_class self library l w = (r, w') →
  managers w' = managers w ∧
  PLUG_IN_MANAGERS w' = PLUG_IN_MANAGERS w ∧
  CACHED_PLUGIN_INFO w' = CACHED_PLUGIN_INFO w ∧
  (∀ a c, resolved_in w a c → resolved_in w' a c) ∧
  (∀ b, b ∉ l → infos w' !! b = infos w !! b) ∧
  imported w' = (imported w ++ new_imports w w')%list.
Proof.
  revert w. induction l as [|a rest IH]; intros w Hrun; simpl in Hrun.
  - munfold. inversion Hrun; subst. repeat split; try done.
    by rewrite new_imports_refl, app_nil_r.
  - munfold.
    destruct (dynamic_load_library do_import_class self a w) as [ro w1] eqn:Hload.
    destruct (dynamic_load_library_frame _ _ _ _ _ Hload)
      as (Hm & Hp & Hc & Hi & new & Hnew & _).
    assert (Hmono : ∀ b cb, resolved_in w b cb → resolved_in w1 b cb)
      by (intros; by eapply dynamic_load_library_mono).
    assert (Hstop : managers w1 = managers w ∧
      PLUG_IN_MANAGERS w1 = PLUG_IN_MANAGERS w ∧
      CACHED_PLUGIN_INFO w1 = CACHED_PLUGIN_INFO w ∧
      (∀ a c, resolved_in w a c → resolved_in w1 a c) ∧
      (∀ b, b ∉ a :: rest → infos w1 !! b = infos w !! b) ∧
      imported w1 = (imported w ++ new_imports w w1)%list).
    { repeat split; try done.
      - intros b Hb. apply not_elem_of_cons in Hb as [Hne Hb]. by apply Hi.
      - by rewrite (new_imports_one _ _ _ Hnew). }
    destruct ro as [c|e|]; [|by inversion Hrun; subst..].
    destruct (library_mismatch library _); [|by inversion Hrun; subst].
    destruct (IH _ Hrun) as (Hm' & Hp' & Hc' & Hmono' & Hi' & Hnew').
    repeat split; try congruence.
    + intros b cb Hb. by apply Hmono', Hmono.
    + intros b Hb. apply not_elem_of_cons in Hb as [Hne Hb].
      rewrite Hi' by done. by apply Hi.
    + by destruct (new_imports_app _ _ _ _ Hnew Hnew').
Qed.

(** [load_me_now] on a key the registry holds is the scan of its list. *)
Lemma load_me_now_registered self key library kw w mg l :
  managers w !! self = Some mg →
  registry mg !! Str.lower key = Some l →
  load_me_now do_import_class self key library kw w
    = load_me_now_loop do_import_class self library l w.
Proof.
  intros Hm Hl. unfold load_me_now. munfold. by rewrite Hm, Hl.
Qed.

(** [load_me_now] on a key the registry does not hold raises the
    exception of [raise_exception], in the same state. *)
Lemma load_me_now_unregistered self key library kw w mg :
  managers w !! self = Some mg →
  registry mg !! Str.lower key = None →
  load_me_now do_import_class self key library kw w =
    (Raise (Exception ("No " +:+ plugin_name mg +:+ " is found for " +:+ key)), w).
Proof.
  intros Hm Hl. unfold load_me_now, raise_exception. munfold.
  by rewrite Hm, Hl, Hm.
Qed.

(** Whatever its outcome, [load_me_now] leaves the managers (hence every
    registry) and both directories as they were. *)
Lemma load_me_now_frame self key library kw w r w' :
  load_me_now do_import_class self key library kw w = (r, w') →
  managers w' = managers w ∧
  PLUG_IN_MANAGERS w' = PLUG_IN_MANAGERS w ∧
  CACHED_PLUGIN_INFO w' = CACHED_PLUGIN_INFO w ∧
  (∀ a c, resolved_in w a c → resolved_in w' a c) ∧
  imported w' = (imported w ++ new_imports w w')%list.
Proof.
  intros Hrun.
  assert (Hnil : ∀ w0 : World, imported w0 = (imported w0 ++ new_imports w0 w0)%list).
  { intros w0. unfold new_imports. by rewrite drop_all, app_nil_r. }
  destruct (managers w !! self) as [mg|] eqn:Hm.
  - destruct (registry mg !! Str.lower key) as [l|] eqn:Hl.
    + rewrite (load_me_now_registered _ _ _ _ _ _ _ Hm Hl) in Hrun.
      destruct (load_me_now_loop_frame _ _ _ _ _ _ Hrun) as (?&?&?&?&?&?).
      done.
    + rewrite (load_me_now_unregistered _ _ _ _ _ _ Hm Hl) in Hrun.
      inversion Hrun; subst. repeat split; try done.
  - unfold load_me_now in Hrun. munfold. rewrite Hm in Hrun.
    inversion Hrun; subst. repeat split; try done.
Qed.

(** [load_me_now] only logs its extra keyword arguments. *)
Lemma load_me_now_keywords self key library kw kw' w :
  load_me_now do_import_class self key library kw w
    = load_me_now do_import_class self key library kw' w.
Proof. done. Qed.

(** [get_a_plugin] in terms of [load_me_now]: a failure of the lookup is
    the failure of the call, and a class found is called without
    arguments. *)
Lemma get_a_plugin_eq self key kw w :
  get_a_plugin do_import_class construct self key kw w =
    match load_me_now do_import_class self key None [] w with
    | (Ret plugin, w') =>
        (match construct plugin [] with
         | inl cause => Raise (ConstructorError cause)
         | inr i => Ret i
         end, w')
    | (Raise e, w') => (Raise e, w')
    | (Dangling, w') => (Dangling, w')
    end.
Proof.
  unfold get_a_plugin, call_class. munfold.
  destruct (load_me_now do_import_class self key None [] w) as [[plugin|e|] w']; try done.
  by destruct (construct plugin []).
Qed.

(** Without a library the scan stops at the head of the list. *)
Lemma load_me_now_head self key kw w mg a rest :
  managers w !! self = Some mg →
  registry mg !! Str.lower key = Some (a :: rest) →
  load_me_now do_import_class self key None kw w
    = dynamic_load_library do_import_class self a w.
Proof.
  intros Hm Hl.
  rewrite (load_me_now_registered _ _ _ _ _ _ _ Hm Hl). simpl. munfold.
  by destruct (dynamic_load_library do_import_class self a w) as [[c|e|] w1].
Qed.

(** A library that is falsy (none, or the empty string) does not filter:
    the scan stops at the head of the list as well. *)
Lemma load_me_now_head_falsy self key library kw w mg a rest :
  Str.truthy_opt library = false →
  managers w !! self = Some mg →
  registry mg !! Str.lower key = Some (a :: rest) →
  load_me_now do_import_class self key library kw w
    = dynamic_load_library do_import_class self a w.
Proof.
  intros Hlib Hm Hl.
  rewrite (load_me_now_registered _ _ _ _ _ _ _ Hm Hl). simpl. munfold.
  destruct (dynamic_load_library do_import_class self a w) as [[c|e|] w1];
    [|done..].
  by rewrite (library_mismatch_falsy _ _ Hlib).
Qed.

(** ** Resolution without a library *)

(** C5.  For a key whose list is [a :: rest], [load_me_now] without a
    library returns the class of the first descriptor [a], whatever its
    package and whatever follows in the list.  Exactly: when [a] carries a
    class, that class is returned and nothing changes; when it is unloaded
    with a path, the loader is called once on the path, and either its
    class is stored on [a] and returned, or its exception is raised; an
    unloaded descriptor without a path raises [TypeError].  In every case
    no other descriptor is touched and the loader is called at most once. *)
Theorem load_me_now_takes_first self key kw w mg a rest d :
  managers w !! self = Some mg →
  registry mg !! Str.lower key = Some (a :: rest) →
  infos w !! a = Some d →
  load_me_now do_import_class self key None kw w =
    match cls d with
    | Some c => (Ret c, w)
    | None =>
        match absolute_import_path d with
        | None => (Raise TypeError, w)
        | Some path =>
            match do_import_class path with
            | inl cause =>
                (Raise (Unresolvable cause),
                 with_imported (λ l, l ++ [path])%list w)
            | inr c =>
                (Ret c,
                 with_infos (λ l, <[a := with_cls c d]> l)
                   (with_imported (λ l, l ++ [path])%list w))
            end
        end
    end ∧
  (∀ c, resolves_to do_import_class w a c →
     ∃ w', load_me_now do_import_class self key None kw w = (Ret c, w') ∧
           resolved_in w' a c) ∧
  load_me_now do_import_class self key None kw w
    = dynamic_load_library do_import_class self a w ∧
  ∀ r w', load_me_now do_import_class self key None kw w = (r, w') →
    (∀ c, r = Ret c → resolved_in w' a c) ∧
    (∀ b, b ≠ a → infos w' !! b = infos w !! b) ∧
    managers w' = managers w ∧
    (length (new_imports w w') ≤ 1)%nat.
Proof.
  intros Hm Hl Ha.
  assert (Heq := load_me_now_head self key kw w mg a rest Hm Hl).
  split; [|split; [|split; [done|]]].
  - rewrite Heq. by apply dynamic_load_library_eq.
  - intros c Hc. rewrite Heq.
    destruct (resolves_to_load self a w c Hc) as (w' & Hrun).
    exists w'. split; [done|]. by eapply dynamic_load_library_resolved.
  - intros r w' Hrun. rewrite Heq in Hrun.
    destruct (dynamic_load_library_frame _ _ _ _ _ Hrun)
      as (Hmgr & _ & _ & Hi & new & Hnew & Hlen).
    repeat split; [|done|done|].
    + intros c ->. by eapply dynamic_load_library_resolved.
    + by rewrite (new_imports_one _ _ _ Hnew).
Qed.

(** ** Exactly-once loading *)

(** C6.  For a path-based descriptor [a] not loaded yet: its first lazy
    loading calls the loader exactly once, with its import path, and the
    outcome is the loader's; when the loader returns a class [c], [c] is
    stored on the descriptor, and from any state in which the descriptor
    carries [c] a further loading returns [c] and changes nothing (no
    loader call).  So resolving a tag headed by [a] twice calls the loader
    once. *)
Theorem dynamic_load_library_once self a w path :
  unresolved_in w a path →
  (∀ r w1, dynamic_load_library do_import_class self a w = (r, w1) →
     new_imports w w1 = [path] ∧
     r = match do_import_class path with
         | inl cause => Raise (Unresolvable cause)
         | inr c => Ret c
         end) ∧
  (∀ c, do_import_class path = inr c →
     ∃ w1, dynamic_load_library do_import_class self a w = (Ret c, w1) ∧
           resolved_in w1 a c ∧
           dynamic_load_library do_import_class self a w1 = (Ret c, w1)) ∧
  (∀ c w2, resolved_in w2 a c →
     dynamic_load_library do_import_class self a w2 = (Ret c, w2)) ∧
  (∀ c mg key key' kw kw' rest,
     do_import_class path = inr c →
     managers w !! self = Some mg →
     registry mg !! Str.lower key = Some (a :: rest) →
     Str.lower key' = Str.lower key →
     ∃ w1, load_me_now do_import_class self key None kw w = (Ret c, w1) ∧
           load_me_now do_import_class self key' None kw' w1 = (Ret c, w1) ∧
           imported w1 = (imported w ++ [path])%list).
Proof.
  intros (d & Ha & Hc & Hp).
  assert (Hcached : ∀ c w2, resolved_in w2 a c →
            dynamic_load_library do_import_class self a w2 = (Ret c, w2)).
  { intros c w2 (d2 & Ha2 & Hc2).
    by rewrite (dynamic_load_library_eq _ _ _ d2 Ha2), Hc2. }
  assert (Hfirst : ∀ c, do_import_class path = inr c →
            ∃ w1, dynamic_load_library do_import_class self a w = (Ret c, w1) ∧
                  resolved_in w1 a c ∧
                  imported w1 = (imported w ++ [path])%list).
  { intros c Hload. eexists. split.
    - rewrite (dynamic_load_library_eq _ _ _ d Ha), Hc, Hp. simpl.
      by rewrite Hload.
    - split; [|done]. exists (with_cls c d). split; [|done]. simpl.
      apply list_lookup_insert_eq. by eapply lookup_lt_Some. }
  split; [|split; [|split]].
  - intros r w1 Hrun.
    rewrite (dynamic_load_library_eq _ _ _ d Ha), Hc, Hp in Hrun.
    simpl in Hrun.
    destruct (do_import_class path) as [cause|c]; inversion Hrun; subst;
      (split; [|done]); by apply new_imports_one.
  - intros c Hload. destruct (Hfirst c Hload) as (w1 & Hrun & Hres & _).
    exists w1. repeat split; [done..|]. by apply Hcached.
  - done.
  - intros c mg key key' kw kw' rest Hload Hm Hl Hkey.
    destruct (Hfirst c Hload) as (w1 & Hrun & Hres & Himp).
    assert (Heq := load_me_now_head self key kw w mg a rest Hm Hl).
    exists w1. split; [by rewrite Heq|]. split; [|done].
    destruct (dynamic_load_library_frame _ _ _ _ _ Hrun) as (Hm1 & _).
    assert (Hm' : managers w1 !! self = Some mg) by (by rewrite Hm1).
    assert (Hl' : registry mg !! Str.lower key' = Some (a :: rest))
      by (by rewrite Hkey).
    assert (Heq' := load_me_now_head self key' kw' w1 mg a rest Hm' Hl').
    rewrite Heq'. by apply Hcached.
Qed.

(** ** Failed resolution *)

(** C9.  When [load_me_now] raises, the managers, hence every registry,
    and both module-level dictionaries are exactly as before the call, and
    [get_a_plugin] on the same key raises the same exception in the same
    state. *)
Theorem load_me_now_failure_keeps_index self key library kw w e w' :
  load_me_now do_import_class self key library kw w = (Raise e, w') →
  managers w' = managers w ∧
  (∀ m, registry <$> managers w' !! m = registry <$> managers w !! m) ∧
  PLUG_IN_MANAGERS w' = PLUG_IN_MANAGERS w ∧
  CACHED_PLUGIN_INFO w' = CACHED_PLUGIN_INFO w ∧
  (library = None →
     ∀ kw', get_a_plugin do_import_class construct self key kw' w = (Raise e, w')).
Proof.
  intros Hrun.
  destruct (load_me_now_frame _ _ _ _ _ _ _ Hrun) as (Hm & Hp & Hc & _).
  repeat split; try done.
  - intros m. by rewrite Hm.
  - intros -> kw'. rewrite get_a_plugin_eq.
    by rewrite (load_me_now_keywords self key None [] kw), Hrun.
Qed.

(** ** Resolution restricted to a library *)

(** The scan passes over descriptors of other packages and returns the
    first class of the requested one. *)
Lemma load_me_now_loop_finds self lib pre a post c w :
  Str.truthy lib = true →
  (∀ b, b ∈ pre → of_other_package do_import_class w lib b) →
  resolves_to do_import_class w a c →
  package_of c = lib →
  ∃ w', load_me_now_loop do_import_class self (Some lib) (pre ++ a :: post) w
          = (Ret c, w').
Proof.
  intros Ht. revert w. induction pre as [|b pre IH]; intros w Hpre Ha Hpkg; simpl.
  - destruct (resolves_to_load self a w c Ha) as (w1 & Hrun).
    munfold. rewrite Hrun. cbv beta zeta iota.
    rewrite (library_mismatch_Some _ _ Ht).
    fold (package_of c). rewrite bool_decide_eq_true_2 by done. by eexists.
  - destruct (Hpre b) as (cb & Hb & Hne); [by left|].
    destruct (resolves_to_load self b w cb Hb) as (w1 & Hrun).
    munfold. rewrite Hrun. cbv beta zeta iota.
    rewrite (library_mismatch_Some _ _ Ht).
    fold (package_of cb). rewrite bool_decide_eq_false_2 by done. simpl.
    apply IH; [|by eapply resolves_to_mono|done].
    intros b' Hb'. destruct (Hpre b') as (cb' & Hres & Hne'); [by right|].
    exists cb'. split; [by eapply resolves_to_mono|done].
Qed.

(** When no descriptor of the list is of the requested package the scan
    ends in the [else] of the loop. *)
Lemma load_me_now_loop_exhausts self lib l w :
  Str.truthy lib = true →
  (∀ b, b ∈ l → of_other_package do_import_class w lib b) →
  ∃ w', load_me_now_loop do_import_class self (Some lib) l w =
          (Raise (Exception (lib +:+ " is not installed")), w').
Proof.
  intros Ht. revert w. induction l as [|b l IH]; intros w Hl; simpl.
  - by eexists.
  - destruct (Hl b) as (cb & Hb & Hne); [by left|].
    destruct (resolves_to_load self b w cb Hb) as (w1 & Hrun).
    munfold. rewrite Hrun. cbv beta zeta iota.
    rewrite (library_mismatch_Some _ _ Ht).
    fold (package_of cb). rewrite bool_decide_eq_false_2 by done. simpl.
    apply IH. intros b' Hb'. destruct (Hl b') as (cb' & Hres & Hne'); [by right|].
    exists cb'. split; [by eapply resolves_to_mono|done].
Qed.

(** C4 (as amended).  For a key the registry holds.  With a non-empty
    [library]: if the list is [pre ++ a :: post], every descriptor of [pre]
    resolves to a class of another package and [a] resolves to a class [c]
    of package [library], then [load_me_now] returns [c]; and if every
    descriptor of the list resolves to a class of another package, it
    raises [Exception] with the message [library is not installed].  With
    the empty string as [library] nothing is filtered: the lookup does
    what the lookup without library does, and returns the class the first
    descriptor of the list resolves to, whatever its package. *)
Theorem load_me_now_first_of_library self key lib kw w mg l :
  managers w !! self = Some mg →
  registry mg !! Str.lower key = Some l →
  (Str.truthy lib = true →
     (∀ pre a post c,
        l = (pre ++ a :: post)%list →
        (∀ b, b ∈ pre → of_other_package do_import_class w lib b) →
        resolves_to do_import_class w a c →
        package_of c = lib →
        ∃ w', load_me_now do_import_class self key (Some lib) kw w = (Ret c, w')) ∧
     ((∀ b, b ∈ l → of_other_package do_import_class w lib b) →
        ∃ w', load_me_now do_import_class self key (Some lib) kw w =
                (Raise (Exception (lib +:+ " is not installed")), w'))) ∧
  (Str.truthy lib = false →
     ∀ a rest, l = a :: rest →
       load_me_now do_import_class self key (Some lib) kw w
         = load_me_now do_import_class self key None kw w ∧
       ∀ c, resolves_to do_import_class w a c →
         ∃ w', load_me_now do_import_class self key (Some lib) kw w = (Ret c, w') ∧
               resolved_in w' a c).
Proof.
  intros Hm Hl. split.
  - intros Ht. rewrite (load_me_now_registered _ _ _ _ _ _ _ Hm Hl). split.
    + intros pre a post c -> Hpre Ha Hpkg. by apply load_me_now_loop_finds.
    + intros Hall. by apply load_me_now_loop_exhausts.
  - intros Ht a rest ->.
    rewrite (load_me_now_head_falsy self key (Some lib) kw w mg a rest Ht Hm Hl).
    rewrite (load_me_now_head self key kw w mg a rest Hm Hl).
    split; [done|]. intros c Hc.
    destruct (resolves_to_load self a w c Hc) as (w' & Hrun).
    exists w'. split; [done|]. by eapply dynamic_load_library_resolved.
Qed.

(** ** What a scan leaves behind *)

(** Lazy loading never raises the built-in [Exception]. *)
Lemma dynamic_load_library_not_Exception self a w msg w1 :
  dynamic_load_library do_import_class self a w ≠ (Raise (Exception msg), w1).
Proof.
  intros Hrun. destruct (infos w !! a) as [d|] eqn:Ha.
  - rewrite (dynamic_load_library_eq _ _ _ d Ha) in Hrun.
    destruct (cls d); [done|]. destruct (absolute_import_path d); [|done].
    simpl in Hrun. by destruct (do_import_class _).
  - by rewrite (dynamic_load_library_dangling _ _ _ Ha) in Hrun.
Qed.

(** One successful loading, seen from the state before it. *)
Lemma dynamic_load_library_loaded self a w c w1 :
  dynamic_load_library do_import_class self a w = (Ret c, w1) →
  loaded_between do_import_class w w1 a c.
Proof.
  intros Hrun. split; [by eapply dynamic_load_library_resolved|].
  intros path (d & Ha & Hc & Hp).
  rewrite (dynamic_load_library_eq _ _ _ d Ha), Hc, Hp in Hrun. simpl in Hrun.
  destruct (do_import_class path) as [cause|c0]; inversion Hrun; subst.
  split; [done|]. rewrite (new_imports_one w _ [path]) by done. by left.
Qed.

(** The scan splits its list into the part it passed over, all loaded
    and of other packages, and the rest: on success the rest starts with
    the descriptor whose class is returned, after the built-in
    [Exception] the rest is empty. *)
Lemma load_me_now_loop_scanned self lib l w r w' :
  load_me_now_loop do_import_class self (Some lib) l w = (r, w') →
  ∃ pre post,
    l = (pre ++ post)%list ∧
    (∀ b, b ∈ pre →
       ∃ cb, loaded_between do_import_class w w' b cb ∧ package_of cb ≠ lib) ∧
    match r with
    | Ret c => ∃ a post', post = a :: post' ∧
                 loaded_between do_import_class w w' a c ∧
                 (Str.truthy lib = true → package_of c = lib)
    | Raise (Exception msg) => post = [] ∧ msg = lib +:+ " is not installed"
    | _ => post ≠ []
    end.
Proof.
  revert w. induction l as [|b rest IH]; intros w Hrun.
  - simpl in Hrun. munfold. inversion Hrun; subst.
    exists [], []. repeat split; try done. intros b Hb. by apply elem_of_nil in Hb.
  - simpl in Hrun. munfold.
    destruct (dynamic_load_library do_import_class self b w) as [ro w1] eqn:Hload.
    destruct ro as [cb|e|].
    2:{ inversion Hrun; subst. exists [], (b :: rest).
        split; [done|]. split; [intros b' Hb'; by apply elem_of_nil in Hb'|].
        destruct e; try done.
        by destruct (dynamic_load_library_not_Exception _ _ _ _ _ Hload). }
    2:{ inversion Hrun; subst. exists [], (b :: rest).
        split; [done|]. split; [intros b' Hb'; by apply elem_of_nil in Hb'|done]. }
    assert (Hb := dynamic_load_library_loaded _ _ _ _ _ Hload).
    cbv beta zeta iota in Hrun. fold (package_of cb) in Hrun.
    destruct (library_mismatch (Some lib) (package_of cb)) eqn:Hmis.
    + apply library_mismatch_true in Hmis as [Ht Hne].
      destruct (IH _ Hrun) as (pre & post & -> & Hpre & Hr).
      destruct (load_me_now_loop_frame _ _ _ _ _ _ Hrun)
        as (_ & _ & _ & Hmono & _ & Himp').
      destruct (dynamic_load_library_frame _ _ _ _ _ Hload)
        as (_ & _ & _ & Hi & new & Hnew & _).
      destruct (new_imports_app _ _ _ _ Hnew Himp') as [Hsplit _].
      assert (Hlift : ∀ x cx, loaded_between do_import_class w1 w' x cx →
                loaded_between do_import_class w w' x cx).
      { intros x cx [Hres Hun]. split; [done|].
        intros path (d & Hx & Hc & Hp).
        destruct (decide (x = b)) as [->|Hxb].
        - destruct Hb as [Hres1 Hun1].
          destruct (Hun1 path) as [Hload1 Hin1]; [by exists d|].
          assert (cx = cb) as -> by (eapply resolved_in_inj; eauto).
          split; [done|]. rewrite Hsplit.
          rewrite (new_imports_one _ _ _ Hnew) in Hin1.
          apply elem_of_app. by left.
        - destruct (Hun path) as [Hload2 Hin2].
          { exists d. by rewrite Hi. }
          split; [done|]. rewrite Hsplit. apply elem_of_app. by right. }
      exists (b :: pre), post. split; [done|]. split.
      * intros x Hx. apply elem_of_cons in Hx as [->|Hx].
        -- exists cb. split; [|done]. destruct Hb as [Hres1 Hun1].
           split; [by apply Hmono|]. intros path Hpath.
           destruct (Hun1 path Hpath) as [Hload1 Hin1]. split; [done|].
           rewrite Hsplit. rewrite (new_imports_one _ _ _ Hnew) in Hin1.
           apply elem_of_app. by left.
        -- destruct (Hpre x Hx) as (cx & Hcx & Hnx). exists cx. split; [|done].
           by apply Hlift.
      * destruct r as [c|e|]; [|done..].
        destruct Hr as (a & post' & -> & Ha & Hpkg).
        exists a, post'. split; [done|]. split; [|done]. by apply Hlift.
    + inversion Hrun; subst. exists [], (b :: rest).
      split; [done|]. split; [intros b' Hb'; by apply elem_of_nil in Hb'|].
      exists b, rest. split; [done|]. split; [done|].
      intros Ht. by apply (library_mismatch_false lib).
Qed.

(** C10.  With a library given, whatever the outcome of [load_me_now] on
    a key the registry holds, the list splits into the descriptors passed
    over before the scan ended and the rest; every descriptor passed over
    carries a class afterwards, and for each one that was not loaded before
    the call the loader was called on its path and its result stored on it.
    The part passed over is the whole list when the call raises the
    built-in [Exception]; it stops before the descriptor whose class is
    returned when the call succeeds, and that descriptor carries the class
    as well. *)
Theorem load_me_now_scan_caches self key lib kw w mg l r w' :
  managers w !! self = Some mg →
  registry mg !! Str.lower key = Some l →
  load_me_now do_import_class self key (Some lib) kw w = (r, w') →
  ∃ scanned rest,
    l = (scanned ++ rest)%list ∧
    (∀ b, b ∈ scanned →
       ∃ cb, loaded_between do_import_class w w' b cb ∧ package_of cb ≠ lib) ∧
    match r with
    | Ret c => ∃ a rest', rest = a :: rest' ∧
                 loaded_between do_import_class w w' a c ∧
                 (Str.truthy lib = true → package_of c = lib)
    | Raise (Exception msg) => rest = [] ∧ msg = lib +:+ " is not installed"
    | _ => rest ≠ []
    end.
Proof.
  intros Hm Hl Hrun.
  rewrite (load_me_now_registered _ _ _ _ _ _ _ Hm Hl) in Hrun.
  by eapply load_me_now_loop_scanned.
Qed.

(** ** Indexing *)

Lemma registered_dd_append k' a reg k :
  registered (dd_append k' a reg) k =
    (registered reg k ++ if decide (k' = k) then [a] else [])%list.
Proof.
  unfold registered, dd_append. destruct (decide (k' = k)) as [->|Hne].
  - by rewrite lookup_insert_eq.
  - by rewrite lookup_insert_ne, app_nil_r.
Qed.

(** Under each key the lists only grow at the end: after indexing [a]
    under the tags [ts], the list under [k] has one more [a] for every tag
    that lower-cases to [k], in tag order. *)
Lemma registered_indexed a ts reg k :
  registered (indexed a ts reg) k =
    (registered reg k ++ (const a <$> filter (λ t, Str.lower t = k) ts))%list.
Proof.
  revert reg. induction ts as [|t ts IH]; intros reg; simpl.
  - by rewrite app_nil_r.
  - unfold indexed in *. simpl. rewrite IH, registered_dd_append.
    rewrite filter_cons. destruct (decide (Str.lower t = k)); simpl.
    + by rewrite <- app_assoc.
    + by rewrite app_nil_r.
Qed.

Lemma with_managers_insert_insert self mg1 mg2 w :
  with_managers (λ l, <[self := mg2]> l) (with_managers (λ l, <[self := mg1]> l) w)
  = with_managers (λ l, <[self := mg2]> l) w.
Proof. unfold with_managers. simpl. by rewrite list_insert_insert_eq. Qed.

Lemma with_managers_insert_id self mg w :
  managers w !! self = Some mg →
  with_managers (λ l, <[self := with_registry (indexed 0 []) mg]> l) w = w.
Proof.
  intros Hm. destruct w as [ds ms dir cached imp]. unfold with_managers. simpl in *.
  f_equal. destruct mg. by apply list_insert_id.
Qed.

Lemma registry_append_eq self key a w mg :
  managers w !! self = Some mg →
  registry_append self key a w =
    (Ret tt, with_managers (λ l, <[self := with_registry (dd_append key a) mg]> l) w).
Proof. intros Hm. unfold registry_append. munfold. by rewrite Hm. Qed.

(** The loop of [load_me_later] rewrites the registry of [self] and
    nothing else. *)
Lemma load_me_later_loop_eq self a ts w mg :
  managers w !! self = Some mg →
  load_me_later_loop self a ts w =
    (Ret tt, with_managers (λ l, <[self := with_registry (indexed a ts) mg]> l) w).
Proof.
  revert w mg. induction ts as [|t ts IH]; intros w mg Hm; simpl.
  - munfold. f_equal. symmetry. by apply (with_managers_insert_id self mg w).
  - munfold. rewrite (registry_append_eq _ _ _ _ _ Hm).
    erewrite IH.
    2:{ simpl. apply list_lookup_insert_eq. by eapply lookup_lt_Some. }
    by rewrite with_managers_insert_insert.
Qed.

(** [load_me_later] on a valid descriptor indexes it under its tags. *)
Lemma load_me_later_eq self a w d mg :
  infos w !! a = Some d →
  managers w !! self = Some mg →
  valid_info d = true →
  load_me_later self a w =
    (Ret tt,
     with_managers (λ l, <[self := with_registry (indexed a (tags d)) mg]> l) w).
Proof.
  intros Ha Hm Hv. unfold load_me_later. munfold. rewrite Ha.
  destruct (valid_info_module_name d Hv) as [s ->].
  by apply load_me_later_loop_eq.
Qed.

(** Appending never leaves an empty list behind, so the lists of a
    registry filled by [load_me_later] have a first descriptor. *)
Lemma dd_append_nonempty k a reg :
  nonempty_lists reg → nonempty_lists (dd_append k a reg).
Proof.
  intros Hreg k' l. unfold dd_append.
  destruct (decide (k = k')) as [->|Hne].
  - rewrite lookup_insert_eq. intros [= <-]. by destruct (default [] (reg !! k')).
  - rewrite lookup_insert_ne by done. apply Hreg.
Qed.

Lemma indexed_nonempty a ts reg :
  nonempty_lists reg → nonempty_lists (indexed a ts reg).
Proof.
  revert reg. induction ts as [|t ts IH]; intros reg Hreg; [done|].
  apply IH. by apply dd_append_nonempty.
Qed.

Lemma load_me_later_nonempty self a w d mg :
  infos w !! a = Some d →
  managers w !! self = Some mg →
  valid_info d = true →
  nonempty_lists (registry mg) →
  ∃ w' mg', load_me_later self a w = (Ret tt, w') ∧
            managers w' !! self = Some mg' ∧
            nonempty_lists (registry mg').
Proof.
  intros Ha Hm Hv Hreg. rewrite (load_me_later_eq _ _ _ _ _ Ha Hm Hv).
  eexists _, (with_registry (indexed a (tags d)) mg). split; [done|]. split.
  - simpl. apply list_lookup_insert_eq. by eapply lookup_lt_Some.
  - simpl. by apply indexed_nonempty.
Qed.

Lemma entries_for_eq w k a d :
  infos w !! a = Some d →
  entries_for w k a = const a <$> filter (λ t, Str.lower t = k) (tags d).
Proof. intros Ha. unfold entries_for. by rewrite Ha. Qed.

Lemma index_of_infos w w1 k l :
  infos w1 = infos w → index_of w1 k l = index_of w k l.
Proof.
  intros Hi. unfold index_of. induction l as [|a l IH]; [done|].
  rewrite !bind_cons, IH. f_equal. unfold entries_for. by rewrite Hi.
Qed.

(** The drain loop of [_register_class]: every queued descriptor is
    indexed, in queue order. *)
Lemma _register_class_loop_eq self l w mg :
  managers w !! self = Some mg →
  (∀ a, a ∈ l → ∃ d, infos w !! a = Some d ∧ valid_info d = true) →
  ∃ reg',
    _register_class_loop self l w =
      (Ret tt, with_managers (λ ms, <[self := with_registry (λ _, reg') mg]> ms) w) ∧
    ∀ k, registered reg' k = (registered (registry mg) k ++ index_of w k l)%list.
Proof.
  revert w mg. induction l as [|a l IH]; intros w mg Hm Hv; simpl.
  - exists (registry mg). split.
    + munfold. f_equal. symmetry. by apply (with_managers_insert_id self mg w).
    + intros k. unfold index_of. by rewrite app_nil_r.
  - destruct (Hv a) as (d & Ha & Hd); [by left|].
    munfold. rewrite Ha, (valid_info_log_cached d Hd). munfold. cbv beta iota.
    rewrite (load_me_later_eq _ _ _ _ _ Ha Hm Hd).
    set (mg1 := with_registry (indexed a (tags d)) mg).
    set (w1 := with_managers (λ l0, <[self := mg1]> l0) w).
    destruct (IH w1 mg1) as (reg' & Hrun & Hreg).
    { simpl. apply list_lookup_insert_eq. by eapply lookup_lt_Some. }
    { intros b Hb. apply Hv. by right. }
    exists reg'. split.
    + rewrite Hrun. unfold w1. by rewrite with_managers_insert_insert.
    + intros k. rewrite Hreg. simpl. rewrite registered_indexed.
      rewrite (index_of_infos w w1) by done.
      rewrite (entries_for_eq w k a d Ha).
      by rewrite <- app_assoc.
Qed.

(** ** The directory: queueing and draining *)

(** Without a manager for its type, a path-based descriptor is queued at
    the end of the pending list of its type. *)
Lemma _load_me_later_queues a w d path :
  infos w !! a = Some d →
  PLUG_IN_MANAGERS w !! plugin_type d = None →
  absolute_import_path d = Some path →
  _load_me_later a w = (Ret tt, with_cached (dd_append (plugin_type d) a) w) ∧
  registered (dd_append (plugin_type d) a (CACHED_PLUGIN_INFO w)) (plugin_type d)
    = (registered (CACHED_PLUGIN_INFO w) (plugin_type d) ++ [a])%list.
Proof.
  intros Ha Hp Hpath. split.
  - unfold _load_me_later. munfold. by rewrite Ha, Hp, Hpath.
  - rewrite registered_dd_append. by rewrite decide_True.
Qed.

(** With a manager for its type, a valid descriptor is indexed at once. *)
Lemma _load_me_later_indexes a w d self mg :
  infos w !! a = Some d →
  PLUG_IN_MANAGERS w !! plugin_type d = Some self →
  managers w !! self = Some mg →
  valid_info d = true →
  _load_me_later a w =
    (Ret tt,
     with_managers (λ l, <[self := with_registry (indexed a (tags d)) mg]> l) w).
Proof.
  intros Ha Hp Hm Hv. unfold _load_me_later. munfold. rewrite Ha, Hp.
  by apply load_me_later_eq.
Qed.

(** [_register_class] on a manager whose type has a pending list. *)
Lemma _register_class_eq self w mg l :
  managers w !! self = Some mg →
  CACHED_PLUGIN_INFO w !! plugin_name mg = Some l →
  (∀ a, a ∈ l → ∃ d, infos w !! a = Some d ∧ valid_info d = true) →
  ∃ reg',
    _register_class self w =
      (Ret tt,
       with_cached (λ c, delete (plugin_name mg) c)
         (with_managers (λ ms, <[self := with_registry (λ _, reg') mg]> ms)
            (with_directory (λ d, <[plugin_name mg := self]> d) w))) ∧
    ∀ k, registered reg' k = (registered (registry mg) k ++ index_of w k l)%list.
Proof.
  intros Hm Hc Hv.
  set (w1 := with_directory (λ d, <[plugin_name mg := self]> d) w).
  destruct (_register_class_loop_eq self l w1 mg) as (reg' & Hrun & Hreg); [done..|].
  exists reg'. split.
  - unfold _register_class. munfold. rewrite Hm. fold w1.
    replace (CACHED_PLUGIN_INFO w1) with (CACHED_PLUGIN_INFO w) by done.
    by rewrite Hc, Hrun.
  - intros k. by rewrite Hreg, (index_of_infos w w1).
Qed.

Lemma truthy_abs_path chain submodule :
  Str.truthy (_get_abs_path chain submodule) = true.
Proof. unfold _get_abs_path. by destruct chain. Qed.


(** ** Construction *)

(** C1 (as amended).  [get_a_plugin(key, **keywords)] looks the key up
    with [load_me_now(key)], no library, and returns the result of calling
    the class found with no arguments; a failure of the lookup is the
    failure of the call.  The keyword arguments do not reach the
    constructor: the outcome is the same for any of them. *)
Theorem get_a_plugin_calls_bare self key kw w :
  get_a_plugin do_import_class construct self key kw w
    = get_a_plugin do_import_class construct self key [] w ∧
  match load_me_now do_import_class self key None kw w with
  | (Ret plugin, w') =>
      get_a_plugin do_import_class construct self key kw w =
        (match construct plugin [] with
         | inl cause => Raise (ConstructorError cause)
         | inr i => Ret i
         end, w')
  | (Raise e, w') => get_a_plugin do_import_class construct self key kw w = (Raise e, w')
  | (Dangling, w') =>
      get_a_plugin do_import_class construct self key kw w = (Dangling, w')
  end.
Proof.
  split; [done|].
  rewrite get_a_plugin_eq, (load_me_now_keywords self key None kw []).
  by destruct (load_me_now do_import_class self key None [] w) as [[plugin|e|] w'].
Qed.

(** ** Tags *)

(** C2 (as amended).  A valid descriptor declared without tags
    ([tags=None]) has its plugin type as only tag: [load_me_later] appends
    it under the lower-cased plugin type and nowhere else, so that it is
    found under a key exactly when the key lower-cases to the lower-cased
    plugin type (or it was there before).  A descriptor declared with an
    empty tag sequence has no tag at all, and [load_me_later] leaves the
    registry as it was. *)
Theorem tags_default self a w d mg :
  infos w !! a = Some d →
  managers w !! self = Some mg →
  valid_info d = true →
  (__tags d = None →
     tags d = [plugin_type d] ∧
     ∃ w' mg',
       load_me_later self a w = (Ret tt, w') ∧
       managers w' !! self = Some mg' ∧
       registry mg' = dd_append (Str.lower (plugin_type d)) a (registry mg) ∧
       ∀ key, a ∈ registered (registry mg') (Str.lower key) ↔
                Str.lower key = Str.lower (plugin_type d) ∨
                a ∈ registered (registry mg) (Str.lower key)) ∧
  (__tags d = Some [] →
     tags d = [] ∧ load_me_later self a w = (Ret tt, w)).
Proof.
  intros Ha Hm Hv. rewrite (load_me_later_eq _ _ _ _ _ Ha Hm Hv). split.
  - intros Ht. assert (Htags : tags d = [plugin_type d]) by (unfold tags; by rewrite Ht).
    split; [done|]. rewrite Htags.
    eexists _, (with_registry (indexed a [plugin_type d]) mg).
    split; [done|]. split.
    { simpl. apply list_lookup_insert_eq. by eapply lookup_lt_Some. }
    split; [done|]. intros key. simpl.
    change (indexed a [plugin_type d] (registry mg))
      with (dd_append (Str.lower (plugin_type d)) a (registry mg)).
    rewrite registered_dd_append, elem_of_app.
    destruct (decide (Str.lower (plugin_type d) = Str.lower key)) as [Heq|Hne].
    + rewrite list_elem_of_singleton.
      split; [intros [?|_]; [by right|by left]|intros [_|?]; [by right|by left]].
    + rewrite elem_of_nil.
      split; [intros [?|[]]; by right|intros [?|?]; [congruence|by left]].
  - intros Ht. assert (Htags : tags d = []) by (unfold tags; by rewrite Ht).
    split; [done|]. rewrite Htags. f_equal.
    by apply (with_managers_insert_id self mg w).
Qed.

(** ** Case of the tag *)

(** C7.  For two keys equal once lower-cased: the registry is consulted
    under the same entry, so [load_me_now] on a key the registry holds runs
    the same scan, over the same list, for both; and a valid descriptor
    that [load_me_later] indexes under a tag is found in the list of every
    key that lower-cases like that tag. *)
Theorem tag_case_insensitive self key key' w mg :
  Str.lower key = Str.lower key' →
  managers w !! self = Some mg →
  registry mg !! Str.lower key = registry mg !! Str.lower key' ∧
  (∀ l library kw,
     registry mg !! Str.lower key = Some l →
     load_me_now do_import_class self key library kw w
       = load_me_now_loop do_import_class self library l w ∧
     load_me_now do_import_class self key' library kw w
       = load_me_now_loop do_import_class self library l w) ∧
  (∀ a d,
     infos w !! a = Some d →
     valid_info d = true →
     key ∈ tags d →
     ∃ w' mg',
       load_me_later self a w = (Ret tt, w') ∧
       managers w' !! self = Some mg' ∧
       a ∈ registered (registry mg') (Str.lower key')).
Proof.
  intros Hk Hm. split; [by rewrite Hk|]. split.
  - intros l library kw Hl. split.
    + by apply load_me_now_registered with mg.
    + apply load_me_now_registered with mg; [done|]. by rewrite <- Hk.
  - intros a d Ha Hv Hin. rewrite (load_me_later_eq _ _ _ _ _ Ha Hm Hv).
    eexists _, (with_registry (indexed a (tags d)) mg). split; [done|]. split.
    { simpl. apply list_lookup_insert_eq. by eapply lookup_lt_Some. }
    simpl. rewrite registered_indexed, elem_of_app. right.
    apply list_elem_of_fmap. exists key. split; [done|].
    apply list_elem_of_filter. by split.
Qed.

(** ** The two failures of a lookup *)

(** C3 (as amended).  [load_me_now] on a key the registry does not hold
    raises [Exception] with the message [No <plugin_name> is found for
    <key>]; on a key it holds, with a non-empty library of which the list
    has no class, it raises [Exception] with the message [<library> is not
    installed].  Both are the built-in [Exception]: the two failures are of
    one kind and differ by their message only. *)
Theorem load_me_now_failures_same_kind self key key' lib library kw kw' w mg l :
  Str.truthy lib = true →
  managers w !! self = Some mg →
  registry mg !! Str.lower key = None →
  registry mg !! Str.lower key' = Some l →
  (∀ b, b ∈ l → of_other_package do_import_class w lib b) →
  ∃ e1 e2 w',
    load_me_now do_import_class self key library kw w = (Raise e1, w) ∧
    load_me_now do_import_class self key' (Some lib) kw' w = (Raise e2, w') ∧
    e1 = Exception ("No " +:+ plugin_name mg +:+ " is found for " +:+ key) ∧
    e2 = Exception (lib +:+ " is not installed") ∧
    kind_of e1 = KException ∧ kind_of e2 = KException.
Proof.
  intros Ht Hm Hnone Hl Hall.
  destruct (load_me_now_loop_exhausts self lib l w Ht Hall) as (w' & Hrun).
  eexists _, _, w'. split; [by apply load_me_now_unregistered|].
  split; [by rewrite (load_me_now_registered _ _ _ _ _ _ _ Hm Hl)|done].
Qed.

(** ** Eager registration: the decorator *)

Lemma set_cls_eq a c w d :
  infos w !! a = Some d →
  set_cls a c w = (Ret tt, with_infos (λ l, <[a := with_cls c d]> l) w).
Proof. intros Ha. unfold set_cls. munfold. by rewrite Ha. Qed.

(** Storing the class a descriptor already carries changes nothing. *)
Lemma with_infos_insert_id a c w d :
  infos w !! a = Some d →
  cls d = Some c →
  with_infos (λ l, <[a := with_cls c d]> l) w = w.
Proof.
  intros Ha Hc. destruct w as [ds ms dir cached imp]. unfold with_infos.
  simpl in *. f_equal. apply list_insert_id. rewrite Ha. f_equal.
  destruct d. simpl in *. by subst.
Qed.

(** A list under a key that starts with [x] is held by the registry. *)
Lemma registered_cons reg k x r :
  registered reg k = x :: r → reg !! k = Some (x :: r).
Proof. unfold registered. destruct (reg !! k); simpl; [by intros ->|done]. Qed.

(** A descriptor with a tag lower-casing to [k] contributes at least one
    entry under [k]. *)
Lemma entries_head (a : nat) (ts : list string) k t :
  t ∈ ts → Str.lower t = k →
  ∃ r, const a <$> filter (λ t, Str.lower t = k) ts = a :: r.
Proof.
  intros Hin Hk.
  assert (Hf : t ∈ filter (λ t, Str.lower t = k) ts)
    by (by apply list_elem_of_filter).
  destruct (filter (λ t, Str.lower t = k) ts) as [|x l].
  - by apply elem_of_nil in Hf.
  - simpl. by eexists.
Qed.

(** The loop of [register_a_plugin] on a descriptor that carries the
    class already: only the registry changes. *)
Lemma register_a_plugin_loop_eq self c a ts w d mg :
  infos w !! a = Some d →
  cls d = Some c →
  managers w !! self = Some mg →
  register_a_plugin_loop self c a ts w =
    (Ret tt, with_managers (λ l, <[self := with_registry (indexed a ts) mg]> l) w).
Proof.
  revert w mg. induction ts as [|t ts IH]; intros w mg Ha Hc Hm; simpl.
  - munfold. f_equal. symmetry. by apply (with_managers_insert_id self mg w).
  - munfold. rewrite (set_cls_eq _ _ _ _ Ha), (with_infos_insert_id _ _ _ _ Ha Hc).
    rewrite (registry_append_eq _ _ _ _ _ Hm).
    erewrite IH; [|done|done|].
    2:{ simpl. apply list_lookup_insert_eq. by eapply lookup_lt_Some. }
    by rewrite with_managers_insert_insert.
Qed.

(** The decorator when the manager of the type exists. *)
Lemma PluginInfo_call_indexes a c w d self mg :
  infos w !! a = Some d →
  PLUG_IN_MANAGERS w !! plugin_type d = Some self →
  managers w !! self = Some mg →
  PluginInfo_call a c w =
    (Ret c,
     with_managers (λ l, <[self := with_registry (indexed a (tags d)) mg]> l)
       (with_infos (λ l, <[a := with_cls c d]> l) w)).
Proof.
  intros Ha Hp Hm.
  set (w1 := with_infos (λ l, <[a := with_cls c d]> l) w).
  assert (Ha1 : infos w1 !! a = Some (with_cls c d)).
  { simpl. apply list_lookup_insert_eq. by eapply lookup_lt_Some. }
  unfold PluginInfo_call, _register_a_plugin, register_a_plugin. munfold.
  rewrite (set_cls_eq _ _ _ _ Ha). fold w1. rewrite Ha1. simpl.
  rewrite Hp, Ha1.
  by rewrite (register_a_plugin_loop_eq self c a _ w1 (with_cls c d) mg Ha1 eq_refl Hm).
Qed.

(** The decorator when no manager of the type exists yet. *)
Lemma PluginInfo_call_queues a c w d :
  infos w !! a = Some d →
  PLUG_IN_MANAGERS w !! plugin_type d = None →
  PluginInfo_call a c w =
    (Ret c,
     with_cached (dd_append (plugin_type d) a)
       (with_infos (λ l, <[a := with_cls c d]> l) w)).
Proof.
  intros Ha Hp.
  set (w1 := with_infos (λ l, <[a := with_cls c d]> l) w).
  assert (Ha1 : infos w1 !! a = Some (with_cls c d)).
  { simpl. apply list_lookup_insert_eq. by eapply lookup_lt_Some. }
  unfold PluginInfo_call, _register_a_plugin. munfold.
  rewrite (set_cls_eq _ _ _ _ Ha). fold w1. rewrite Ha1. simpl.
  by rewrite Hp.
Qed.

(** X1.  The decorator never raises: applied to a descriptor [a] and a
    class [c] it returns [c], the descriptor carries [c] afterwards and the
    loader is not called.  Without a manager for the type the descriptor is
    put at the end of the pending list of its type, whether or not it has
    an import path. *)
Theorem PluginInfo_call_total a c w d :
  infos w !! a = Some d →
  (∀ self, PLUG_IN_MANAGERS w !! plugin_type d = Some self →
           is_Some (managers w !! self)) →
  ∃ w',
    PluginInfo_call a c w = (Ret c, w') ∧
    resolved_in w' a c ∧
    imported w' = imported w ∧
    (PLUG_IN_MANAGERS w !! plugin_type d = None →
       managers w' = managers w ∧
       registered (CACHED_PLUGIN_INFO w') (plugin_type d) =
         (registered (CACHED_PLUGIN_INFO w) (plugin_type d) ++ [a])%list).
Proof.
  intros Ha Hwf.
  assert (Hres : ∀ w0, infos w0 = <[a := with_cls c d]> (infos w) →
            resolved_in w0 a c).
  { intros w0 Hw0. exists (with_cls c d). split; [|done]. rewrite Hw0.
    apply list_lookup_insert_eq. by eapply lookup_lt_Some. }
  destruct (PLUG_IN_MANAGERS w !! plugin_type d) as [self|] eqn:Hp.
  - destruct (Hwf self eq_refl) as [mg Hm].
    eexists. split; [by apply (PluginInfo_call_indexes a c w d self mg)|].
    split; [by apply Hres|]. done.
  - eexists. split; [by apply PluginInfo_call_queues|].
    split; [by apply Hres|]. split; [done|]. intros _. split; [done|].
    simpl. rewrite registered_dd_append. by rewrite decide_True.
Qed.

(** X2.  Eager round trip.  When the manager of its type exists and holds
    nothing under a tag [t] of the descriptor, decorating a class [c] with
    the descriptor makes every key that lower-cases like [t] resolve to
    [c], in the state the decorator left and without any call of the
    loader. *)
Theorem decorated_class_resolves a c w d self mg t :
  infos w !! a = Some d →
  PLUG_IN_MANAGERS w !! plugin_type d = Some self →
  managers w !! self = Some mg →
  t ∈ tags d →
  registered (registry mg) (Str.lower t) = [] →
  ∃ w',
    PluginInfo_call a c w = (Ret c, w') ∧
    imported w' = imported w ∧
    ∀ key kw, Str.lower key = Str.lower t →
      load_me_now do_import_class self key None kw w' = (Ret c, w').
Proof.
  intros Ha Hp Hm Ht Hnone.
  eexists. split; [by apply (PluginInfo_call_indexes a c w d self mg)|].
  split; [done|]. intros key kw Hkey.
  set (w' := with_managers _ _).
  assert (Ha' : infos w' !! a = Some (with_cls c d)).
  { simpl. apply list_lookup_insert_eq. by eapply lookup_lt_Some. }
  assert (Hm' : managers w' !! self = Some (with_registry (indexed a (tags d)) mg)).
  { simpl. apply list_lookup_insert_eq. by eapply lookup_lt_Some. }
  destruct (entries_head a (tags d) (Str.lower t) t Ht eq_refl) as [r Hr].
  assert (Hl : registry (with_registry (indexed a (tags d)) mg) !! Str.lower key
               = Some (a :: r)).
  { apply registered_cons. simpl. rewrite Hkey, registered_indexed, Hnone, Hr. done. }
  rewrite (load_me_now_head _ _ _ _ _ _ _ Hm' Hl).
  by rewrite (dynamic_load_library_eq _ _ _ _ Ha').
Qed.

(** ** Declarations made before the manager exists *)

(** The entries of a descriptor depend on its tags only. *)
Lemma entries_for_tags w w1 k a :
  tags <$> infos w1 !! a = tags <$> infos w !! a →
  entries_for w1 k a = entries_for w k a.
Proof.
  unfold entries_for. intros Ht.
  destruct (infos w1 !! a) as [d1|], (infos w !! a) as [d|]; simpl in Ht;
    try done. by injection Ht as ->.
Qed.

Lemma index_of_tags w w1 k l :
  (∀ a, a ∈ l → tags <$> infos w1 !! a = tags <$> infos w !! a) →
  index_of w1 k l = index_of w k l.
Proof.
  unfold index_of. induction l as [|a l IH]; intros Ht; [done|].
  rewrite !bind_cons, IH.
  - f_equal. apply entries_for_tags, Ht. by left.
  - intros b Hb. apply Ht. by right.
Qed.

Lemma index_of_app w k l1 l2 :
  index_of w k (l1 ++ l2) = (index_of w k l1 ++ index_of w k l2)%list.
Proof. unfold index_of. by rewrite bind_app. Qed.

Lemma index_of_singleton w k a : index_of w k [a] = entries_for w k a.
Proof. unfold index_of. simpl. by rewrite app_nil_r. Qed.

(** [PluginManager(ptype)] when the type has a pending list of valid
    descriptors. *)
Lemma PluginManager_init_eq ptype w l :
  CACHED_PLUGIN_INFO w !! ptype = Some l →
  (∀ a, a ∈ l → ∃ d, infos w !! a = Some d ∧ valid_info d = true) →
  ∃ reg',
    PluginManager_init ptype w =
      (Ret (length (managers w)),
       with_cached (λ c, delete ptype c)
         (with_managers
            (λ ms, <[length (managers w) :=
                       {| plugin_name := ptype; registry := reg' |}]> ms)
            (with_directory (λ d, <[ptype := length (managers w)]> d)
               (with_managers
                  (λ ms, ms ++ [ {| plugin_name := ptype; registry := ∅ |} ])%list
                  w)))) ∧
    ∀ k, registered reg' k = index_of w k l.
Proof.
  intros Hc Hv.
  set (self := length (managers w)).
  set (mg0 := {| plugin_name := ptype; registry := ∅ |}).
  set (w0 := with_managers (λ ms, ms ++ [mg0])%list w).
  assert (Hm0 : managers w0 !! self = Some mg0).
  { simpl. by apply list_lookup_middle. }
  destruct (_register_class_eq self w0 mg0 l Hm0 Hc Hv) as (reg' & Hrun & Hreg).
  exists reg'. split.
  - unfold PluginManager_init. munfold. fold self mg0 w0. by rewrite Hrun.
  - intros k. rewrite Hreg. simpl. unfold registered at 1.
    rewrite lookup_empty. simpl. by apply index_of_infos.
Qed.

(** [PluginManager(ptype)] when the type has no pending list: the new
    manager is entered in the directory, with an empty registry. *)
Lemma PluginManager_init_fresh ptype w :
  CACHED_PLUGIN_INFO w !! ptype = None →
  PluginManager_init ptype w =
    (Ret (length (managers w)),
     with_directory (λ d, <[ptype := length (managers w)]> d)
       (with_managers
          (λ ms, ms ++ [ {| plugin_name := ptype; registry := ∅ |} ])%list w)).
Proof.
  intros Hc. unfold PluginManager_init, _register_class. munfold. simpl.
  rewrite list_lookup_middle by done. simpl. by rewrite Hc.
Qed.

(** Creating the manager of a type whose pending list [l] is valid, seen
    through the registry only. *)
Lemma PluginManager_init_registry ptype w l :
  registered (CACHED_PLUGIN_INFO w) ptype = l →
  (∀ a, a ∈ l → ∃ d, infos w !! a = Some d ∧ valid_info d = true) →
  ∃ w' mg,
    PluginManager_init ptype w = (Ret (length (managers w)), w') ∧
    managers w' !! length (managers w) = Some mg ∧
    infos w' = infos w ∧
    imported w' = imported w ∧
    ∀ k, registered (registry mg) k = index_of w k l.
Proof.
  intros Hl Hv. unfold registered in Hl.
  destruct (CACHED_PLUGIN_INFO w !! ptype) as [l0|] eqn:Hc; simpl in Hl; subst.
  - destruct (PluginManager_init_eq ptype w l Hc Hv) as (reg' & Hrun & Hreg).
    eexists _, {| plugin_name := ptype; registry := reg' |}.
    split; [exact Hrun|]. split; [|done]. simpl.
    apply list_lookup_insert_eq. rewrite length_app. simpl. lia.
  - eexists _, {| plugin_name := ptype; registry := ∅ |}.
    split; [by apply PluginManager_init_fresh|]. split; [|done].
    simpl. by apply list_lookup_middle.
Qed.


(** X4.  A path declared through the chain builder (with keywords that
    [PluginInfo] accepts, that is without [abs_class_path]) before the
    manager of its type exists is loaded on first use: if the descriptors
    already pending for the type are valid and none of them carries a tag
    lower-casing like the tag [t] of the declaration, then the declaration
    and the creation of the manager call the loader not at all, and the
    first lookup of a key lower-casing like [t] calls it exactly once, on
    [chain.submodule], and has its outcome. *)
Theorem lazy_declared_before_manager chain ptype submodule tgs kw w t :
  has_key "abs_class_path" kw = false →
  PLUG_IN_MANAGERS w !! ptype = None →
  (∀ b, b ∈ registered (CACHED_PLUGIN_INFO w) ptype →
        ∃ db, infos w !! b = Some db ∧ valid_info db = true) →
  t ∈ default [ptype] tgs →
  index_of w (Str.lower t) (registered (CACHED_PLUGIN_INFO w) ptype) = [] →
  ∃ w1 w2,
    add_a_plugin chain ptype submodule tgs kw w = (Ret chain, w1) ∧
    PluginManager_init ptype w1 = (Ret (length (managers w)), w2) ∧
    imported w2 = imported w ∧
    ∀ key kwa r w3, Str.lower key = Str.lower t →
      load_me_now do_import_class (length (managers w)) key None kwa w2 = (r, w3) →
      r = match do_import_class (_get_abs_path chain submodule) with
          | inl cause => Raise (Unresolvable cause)
          | inr c => Ret c
          end ∧
      imported w3 = (imported w ++ [_get_abs_path chain submodule])%list.
Proof.
  intros Hkw Hp Hv Ht Hidx.
  set (l0 := registered (CACHED_PLUGIN_INFO w) ptype) in *.
  set (d := {| plugin_type := ptype;
               absolute_import_path := Some (_get_abs_path chain submodule);
               cls := None; properties := kw; __tags := tgs |}).
  set (a := length (infos w)).
  set (w0 := with_infos (λ ds, ds ++ [d])%list w).
  set (w1 := with_cached (dd_append ptype a) w0).
  assert (Ha0 : infos w0 !! a = Some d) by (simpl; by apply list_lookup_middle).
  assert (Hadd : add_a_plugin chain ptype submodule tgs kw w = (Ret chain, w1)).
  { unfold add_a_plugin. rewrite Hkw.
    unfold add_a_plugin_instance, PluginInfo_init. munfold.
    change (_load_me_later _ _) with (_load_me_later a w0).
    destruct (_load_me_later_queues a w0 d _ Ha0 Hp eq_refl) as [-> _]. done. }
  assert (Hold : ∀ b db, infos w !! b = Some db → infos w1 !! b = Some db).
  { intros b db Hb. simpl. by apply lookup_app_l_Some. }
  assert (Hl1 : registered (CACHED_PLUGIN_INFO w1) ptype = (l0 ++ [a])%list).
  { simpl. rewrite registered_dd_append. by rewrite decide_True. }
  destruct (PluginManager_init_registry ptype w1 (l0 ++ [a]) Hl1)
    as (w2 & mg & Hrun & Hm & Hi & Himp & Hreg).
  { intros b Hb. apply elem_of_app in Hb as [Hb|Hb].
    - destruct (Hv b Hb) as (db & Hdb & Hvb). exists db. split; [|done].
      by apply Hold.
    - apply list_elem_of_singleton in Hb as ->. exists d. split; [done|].
      unfold valid_info. simpl. by rewrite truthy_abs_path. }
  exists w1, w2. split; [done|]. split; [exact Hrun|]. split; [by rewrite Himp|].
  intros key kwa r w3 Hkey Hload.
  assert (Hr : ∃ rs, entries_for w1 (Str.lower t) a = a :: rs).
  { rewrite (entries_for_eq w1 _ a d) by done.
    apply (entries_head a (tags d) (Str.lower t) t); [|done].
    unfold tags. simpl. by destruct tgs. }
  destruct Hr as [rs Hrs].
  assert (Hl : registry mg !! Str.lower key = Some (a :: rs)).
  { apply registered_cons. rewrite Hreg, Hkey, index_of_app, index_of_singleton.
    rewrite (index_of_tags w w1), Hidx, Hrs; [done|].
    intros b Hb. destruct (Hv b Hb) as (db & Hdb & _).
    by rewrite (Hold b db Hdb), Hdb. }
  rewrite (load_me_now_head _ _ _ _ _ _ _ Hm Hl) in Hload.
  assert (Ha2 : infos w2 !! a = Some d) by (by rewrite Hi).
  rewrite (dynamic_load_library_eq _ _ _ _ Ha2) in Hload. simpl in Hload.
  destruct (do_import_class (_get_abs_path chain submodule)) as [cause|c0];
    inversion Hload; subst; simpl; by rewrite Himp.
Qed.

(** ** Failures and edge cases *)

Lemma invalid_info_raises d :
  valid_info d = false →
  module_name d = inl AttributeError ∧ log_cached d = inl AttributeError.
Proof.
  unfold valid_info, module_name, log_cached. intros Hv.
  apply orb_false_iff in Hv as [-> Hc].
  apply bool_decide_eq_false in Hc.
  destruct (cls d) as [c|]; [|done]. destruct Hc. by eexists.
Qed.

(** X5.  The lazy declaration fails on two kinds of descriptor and leaves
    the state untouched in both cases: without a manager for the type, a
    descriptor without import path raises [TypeError] (even when it carries
    a class); with a manager, a descriptor with neither a non-empty path nor
    a class raises [AttributeError]. *)
Theorem lazy_declaration_errors a w d :
  infos w !! a = Some d →
  (PLUG_IN_MANAGERS w !! plugin_type d = None →
   absolute_import_path d = None →
   _load_me_later a w = (Raise TypeError, w)) ∧
  (∀ self, PLUG_IN_MANAGERS w !! plugin_type d = Some self →
   valid_info d = false →
   _load_me_later a w = (Raise AttributeError, w)).
Proof.
  intros Ha. split.
  - intros Hp Hpath. unfold _load_me_later. munfold. by rewrite Ha, Hp, Hpath.
  - intros self Hp Hv. destruct (invalid_info_raises d Hv) as [Hmod _].
    unfold _load_me_later, load_me_later. munfold. by rewrite Ha, Hp, Ha, Hmod.
Qed.

(** The drain loop up to the first invalid descriptor. *)
Lemma _register_class_loop_invalid self pre a post w mg d :
  managers w !! self = Some mg →
  (∀ b, b ∈ pre → ∃ db, infos w !! b = Some db ∧ valid_info db = true) →
  infos w !! a = Some d →
  valid_info d = false →
  ∃ reg',
    _register_class_loop self (pre ++ a :: post) w =
      (Raise AttributeError,
       with_managers (λ ms, <[self := with_registry (λ _, reg') mg]> ms) w) ∧
    ∀ k, registered reg' k = (registered (registry mg) k ++ index_of w k pre)%list.
Proof.
  intros Hm Hv Ha Hd. destruct (invalid_info_raises d Hd) as [_ Hlog].
  revert w mg Hm Hv Ha. induction pre as [|b pre IH]; intros w mg Hm Hv Ha; simpl.
  - exists (registry mg). split.
    + munfold. rewrite Ha, Hlog. munfold. f_equal. symmetry.
      by apply (with_managers_insert_id self mg w).
    + intros k. unfold index_of. by rewrite app_nil_r.
  - destruct (Hv b) as (db & Hb & Hdb); [by left|].
    munfold. rewrite Hb, (valid_info_log_cached db Hdb). munfold. cbv beta iota.
    rewrite (load_me_later_eq _ _ _ _ _ Hb Hm Hdb).
    set (mg1 := with_registry (indexed b (tags db)) mg).
    set (w1 := with_managers (λ l0, <[self := mg1]> l0) w).
    destruct (IH w1 mg1) as (reg' & Hrun & Hreg).
    { simpl. apply list_lookup_insert_eq. by eapply lookup_lt_Some. }
    { intros x Hx. apply Hv. by right. }
    { done. }
    exists reg'. split.
    + rewrite Hrun. unfold w1. by rewrite with_managers_insert_insert.
    + intros k. rewrite Hreg. simpl. rewrite registered_indexed.
      rewrite (index_of_infos w w1) by done.
      rewrite (entries_for_eq w k b db Hb).
      by rewrite <- app_assoc.
Qed.

(** X6.  When the pending list of a type holds a descriptor with neither
    a non-empty path nor a class, creating the manager raises
    [AttributeError] half-way: the manager is in the directory already, the
    descriptors queued before the offending one are indexed, and the
    pending list of the type is still there, whole. *)
Theorem PluginManager_init_invalid_pending ptype w pre a post d :
  CACHED_PLUGIN_INFO w !! ptype = Some (pre ++ a :: post)%list →
  (∀ b, b ∈ pre → ∃ db, infos w !! b = Some db ∧ valid_info db = true) →
  infos w !! a = Some d →
  valid_info d = false →
  ∃ w' mg,
    PluginManager_init ptype w = (Raise AttributeError, w') ∧
    PLUG_IN_MANAGERS w' !! ptype = Some (length (managers w)) ∧
    CACHED_PLUGIN_INFO w' = CACHED_PLUGIN_INFO w ∧
    managers w' !! length (managers w) = Some mg ∧
    ∀ k, registered (registry mg) k = index_of w k pre.
Proof.
  intros Hc Hv Ha Hd.
  set (self := length (managers w)).
  set (mg0 := {| plugin_name := ptype; registry := ∅ |}).
  set (w0 := with_directory (λ dir, <[ptype := self]> dir)
               (with_managers (λ ms, ms ++ [mg0])%list w)).
  assert (Hm0 : managers w0 !! self = Some mg0).
  { simpl. by apply list_lookup_middle. }
  destruct (_register_class_loop_invalid self pre a post w0 mg0 d Hm0 Hv Ha Hd)
    as (reg' & Hrun & Hreg).
  eexists _, (with_registry (λ _, reg') mg0). split; [|split; [|split; [|split]]].
  - unfold PluginManager_init, _register_class. munfold. simpl.
    rewrite list_lookup_middle by done. simpl. rewrite Hc.
    fold self mg0. fold w0. by rewrite Hrun.
  - simpl. by rewrite lookup_insert_eq.
  - done.
  - simpl. apply list_lookup_insert_eq. rewrite length_app. simpl. unfold self. lia.
  - intros k. simpl. rewrite Hreg. simpl. unfold registered at 1.
    rewrite lookup_empty. simpl. by apply index_of_infos.
Qed.

(** X7.  A second manager for a type that has one already (and no pending
    list) takes its place in the directory with an empty registry: the
    first manager keeps its registry, but nothing of it is carried over,
    so every lookup through the new manager fails as not found. *)
Theorem second_manager_starts_empty ptype w old mg_old :
  PLUG_IN_MANAGERS w !! ptype = Some old →
  managers w !! old = Some mg_old →
  CACHED_PLUGIN_INFO w !! ptype = None →
  ∃ w',
    PluginManager_init ptype w = (Ret (length (managers w)), w') ∧
    old ≠ length (managers w) ∧
    PLUG_IN_MANAGERS w' !! ptype = Some (length (managers w)) ∧
    managers w' !! old = Some mg_old ∧
    ∀ key library kw,
      load_me_now do_import_class (length (managers w)) key library kw w' =
        (Raise (Exception ("No " +:+ ptype +:+ " is found for " +:+ key)), w').
Proof.
  intros Hp Hm Hc. eexists. split; [by apply PluginManager_init_fresh|].
  assert (Hlt : (old < length (managers w))%nat) by (by eapply lookup_lt_Some).
  split; [lia|]. split; [simpl; by rewrite lookup_insert_eq|].
  split; [simpl; by apply lookup_app_l_Some|].
  intros key library kw.
  apply (load_me_now_unregistered _ _ _ _ _
           {| plugin_name := ptype; registry := ∅ |}).
  - simpl. by apply list_lookup_middle.
  - done.
Qed.

(** X8.  Indexing is not deduplicated: handing the same valid descriptor
    to [load_me_later] twice lists it twice under each of its keys, after
    everything that was there. *)
Theorem load_me_later_twice self a w d mg :
  infos w !! a = Some d →
  managers w !! self = Some mg →
  valid_info d = true →
  ∃ w1 w2 mg2,
    load_me_later self a w = (Ret tt, w1) ∧
    load_me_later self a w1 = (Ret tt, w2) ∧
    managers w2 !! self = Some mg2 ∧
    ∀ k, registered (registry mg2) k =
           (registered (registry mg) k ++ entries_for w k a ++ entries_for w k a)%list.
Proof.
  intros Ha Hm Hv.
  set (mg1 := with_registry (indexed a (tags d)) mg).
  set (w1 := with_managers (λ l, <[self := mg1]> l) w).
  assert (Hm1 : managers w1 !! self = Some mg1).
  { simpl. apply list_lookup_insert_eq. by eapply lookup_lt_Some. }
  eexists w1, _, (with_registry (indexed a (tags d)) mg1).
  split; [by apply load_me_later_eq|].
  split; [by apply (load_me_later_eq self a w1 d mg1)|]. split.
  - simpl. apply list_lookup_insert_eq. rewrite length_insert.
    by eapply lookup_lt_Some.
  - intros k. simpl. rewrite !registered_indexed, (entries_for_eq w k a d Ha).
    by rewrite <- app_assoc.
Qed.

(** X9.  A failed import is not remembered.  When the loader fails on the
    path of the first descriptor of a list, the lookup raises the loader's
    exception, with or without a library and whatever follows in the list;
    the descriptor stays unloaded, and a second lookup calls the loader on
    the same path again. *)
Theorem failed_import_is_retried self key library kw w mg a rest path cause :
  unresolved_in w a path →
  do_import_class path = inl cause →
  managers w !! self = Some mg →
  registry mg !! Str.lower key = Some (a :: rest) →
  ∃ w1 w2,
    load_me_now do_import_class self key library kw w
      = (Raise (Unresolvable cause), w1) ∧
    infos w1 = infos w ∧
    imported w1 = (imported w ++ [path])%list ∧
    load_me_now do_import_class self key library kw w1
      = (Raise (Unresolvable cause), w2) ∧
    imported w2 = (imported w ++ [path; path])%list.
Proof.
  intros (d & Ha & Hc & Hp) Hload Hm Hl.
  assert (Hstep : ∀ w0, infos w0 = infos w → managers w0 = managers w →
            load_me_now do_import_class self key library kw w0 =
              (Raise (Unresolvable cause),
               with_imported (λ l, l ++ [path])%list w0)).
  { intros w0 Hi0 Hm0.
    rewrite (load_me_now_registered _ _ _ _ _ mg (a :: rest));
      [|by rewrite Hm0|done].
    simpl. munfold.
    rewrite (dynamic_load_library_eq _ _ _ d) by (by rewrite Hi0).
    rewrite Hc, Hp. simpl. by rewrite Hload. }
  eexists _, _. split; [by apply Hstep|]. split; [done|]. split; [done|].
  split; [by apply Hstep|]. simpl. by rewrite <- app_assoc.
Qed.

(** ** What every operation preserves *)

Lemma steps_bind {A B} (R : World → World → Prop) `{!PreOrder R}
    (c : M A) (k : A → M B) :
  steps R c → (∀ a, steps R (k a)) → steps R (c ≫= k).
Proof.
  intros Hc Hk w r w' Hrun. unfold mbind, M_bind in Hrun.
  destruct (c w) as [[a|e|] w1] eqn:Hcw.
  - transitivity w1; [by eapply Hc|by eapply Hk].
  - inversion Hrun; subst. by eapply Hc.
  - inversion Hrun; subst. by eapply Hc.
Qed.

Lemma steps_pure {A} (R : World → World → Prop) `{!PreOrder R} (c : M A) :
  (∀ w, snd (c w) = w) → steps R c.
Proof. intros Hc w r w' Hrun. specialize (Hc w). rewrite Hrun in Hc. by subst. Qed.

Lemma steps_modify (R : World → World → Prop) (f : World → World) :
  (∀ w, R w (f w)) → steps R (modify f).
Proof. intros Hf w r w' Hrun. unfold modify in Hrun. inversion Hrun; subst. apply Hf. Qed.

Section Steps.

(** A preorder on states that the elementary updates respect is respected
    by every operation of the module. *)
Context (R : World → World → Prop) `{!PreOrder R}.
Hypothesis R_set_cls : ∀ a c, steps R (set_cls a c).
Hypothesis R_registry_append : ∀ m key a, steps R (registry_append m key a).
Hypothesis R_new_info : ∀ d w, R w (with_infos (λ l, l ++ [d])%list w).
Hypothesis R_new_manager : ∀ ptype w,
  R w (with_managers
         (λ l, l ++ [ {| plugin_name := ptype; registry := ∅ |} ])%list w).
Hypothesis R_directory : ∀ t m w, R w (with_directory (λ d, <[t := m]> d) w).
Hypothesis R_cached : ∀ f w, R w (with_cached f w).
Hypothesis R_imported : ∀ path w, R w (with_imported (λ l, l ++ [path])%list w).

Lemma steps_get_info a : steps R (get_info a).
Proof.
  apply steps_pure; [done|]. intros w. unfold get_info.
  by destruct (infos w !! a).
Qed.

Lemma steps_get_manager m : steps R (get_manager m).
Proof.
  apply steps_pure; [done|]. intros w. unfold get_manager.
  by destruct (managers w !! m).
Qed.

Lemma steps_get_world : steps R get_world.
Proof. by apply steps_pure. Qed.

Lemma steps_ret {A} (a : A) : steps R (mret a).
Proof. by apply steps_pure. Qed.

Lemma steps_raise {A} e : steps R (raise (A := A) e).
Proof. by apply steps_pure. Qed.

Lemma steps_lift {A} (r : exn + A) : steps R (lift r).
Proof. destruct r; [apply steps_raise|apply steps_ret]. Qed.

Lemma steps_PluginInfo_init ptype path tgs kw :
  steps R (PluginInfo_init ptype path tgs kw).
Proof.
  unfold PluginInfo_init. apply steps_bind; [done|apply steps_get_world|].
  intros w0. apply steps_bind; [done| |intros; apply steps_ret].
  apply steps_modify. intros w. apply R_new_info.
Qed.

Lemma steps_import_class path : steps R (import_class do_import_class path).
Proof.
  unfold import_class. apply steps_bind; [done| |intros _].
  - apply steps_modify. intros w. apply R_imported.
  - destruct (do_import_class path); [apply steps_raise|apply steps_ret].
Qed.

Lemma steps_dynamic_load_library self a :
  steps R (dynamic_load_library do_import_class self a).
Proof.
  unfold dynamic_load_library. apply steps_bind; [done|apply steps_get_info|].
  intros d. destruct (cls d); [apply steps_ret|].
  destruct (absolute_import_path d); [|apply steps_raise].
  apply steps_bind; [done|apply steps_import_class|]. intros c.
  apply steps_bind; [done|apply R_set_cls|intros; apply steps_ret].
Qed.

Lemma steps_load_me_now_loop self library l :
  steps R (load_me_now_loop do_import_class self library l).
Proof.
  induction l as [|a l IH]; simpl; [apply steps_raise|].
  apply steps_bind; [done|apply steps_dynamic_load_library|]. intros c.
  destruct (library_mismatch _ _); [done|apply steps_ret].
Qed.

Lemma steps_load_me_now self key library kw :
  steps R (load_me_now do_import_class self key library kw).
Proof.
  unfold load_me_now. apply steps_bind; [done|apply steps_get_manager|].
  intros mg. destruct (registry mg !! _); [apply steps_load_me_now_loop|].
  unfold raise_exception. apply steps_bind; [done|apply steps_get_manager|].
  intros; apply steps_raise.
Qed.

Lemma steps_get_a_plugin self key kw :
  steps R (get_a_plugin do_import_class construct self key kw).
Proof.
  unfold get_a_plugin. apply steps_bind; [done|apply steps_load_me_now|].
  intros plugin. unfold call_class.
  destruct (construct plugin []); [apply steps_raise|apply steps_ret].
Qed.

Lemma steps_load_me_later_loop self a ts : steps R (load_me_later_loop self a ts).
Proof.
  induction ts as [|t ts IH]; simpl; [apply steps_ret|].
  apply steps_bind; [done|apply R_registry_append|done].
Qed.

Lemma steps_load_me_later self a : steps R (load_me_later self a).
Proof.
  unfold load_me_later. apply steps_bind; [done|apply steps_get_info|].
  intros d. apply steps_bind; [done|apply steps_lift|].
  intros _. apply steps_load_me_later_loop.
Qed.

Lemma steps_register_a_plugin_loop self c a ts :
  steps R (register_a_plugin_loop self c a ts).
Proof.
  induction ts as [|t ts IH]; simpl; [apply steps_ret|].
  apply steps_bind; [done|apply R_set_cls|]. intros _.
  apply steps_bind; [done|apply R_registry_append|done].
Qed.

Lemma steps_register_a_plugin self c a : steps R (register_a_plugin self c a).
Proof.
  unfold register_a_plugin. apply steps_bind; [done|apply steps_get_info|].
  intros d. apply steps_register_a_plugin_loop.
Qed.

Lemma steps__register_class_loop self l : steps R (_register_class_loop self l).
Proof.
  induction l as [|a l IH]; simpl; [apply steps_ret|].
  apply steps_bind; [done|apply steps_get_info|]. intros d.
  apply steps_bind; [done|apply steps_lift|]. intros _.
  apply steps_bind; [done|apply steps_load_me_later|done].
Qed.

Lemma steps__register_class self : steps R (_register_class self).
Proof.
  unfold _register_class. apply steps_bind; [done|apply steps_get_manager|].
  intros mg. apply steps_bind; [done| |intros _].
  { apply steps_modify. intros w. apply R_directory. }
  apply steps_bind; [done|apply steps_get_world|]. intros w0.
  destruct (CACHED_PLUGIN_INFO w0 !! plugin_name mg); [|apply steps_ret].
  apply steps_bind; [done|apply steps__register_class_loop|]. intros _.
  apply steps_modify. intros w. apply R_cached.
Qed.

Lemma steps_PluginManager_init ptype : steps R (PluginManager_init ptype).
Proof.
  unfold PluginManager_init. apply steps_bind; [done|apply steps_get_world|].
  intros w0. apply steps_bind; [done| |intros _].
  { apply steps_modify. intros w. apply R_new_manager. }
  apply steps_bind; [done|apply steps__register_class|intros; apply steps_ret].
Qed.

Lemma steps__register_a_plugin a c : steps R (_register_a_plugin a c).
Proof.
  unfold _register_a_plugin. apply steps_bind; [done|apply steps_get_info|].
  intros d. apply steps_bind; [done|apply steps_get_world|]. intros w0.
  destruct (PLUG_IN_MANAGERS w0 !! plugin_type d);
    [apply steps_register_a_plugin|].
  apply steps_modify. intros w. apply R_cached.
Qed.

Lemma steps__load_me_later a : steps R (_load_me_later a).
Proof.
  unfold _load_me_later. apply steps_bind; [done|apply steps_get_info|].
  intros d. apply steps_bind; [done|apply steps_get_world|]. intros w0.
  destruct (PLUG_IN_MANAGERS w0 !! plugin_type d); [apply steps_load_me_later|].
  destruct (absolute_import_path d); [|apply steps_raise].
  apply steps_modify. intros w. apply R_cached.
Qed.

Lemma steps_PluginInfo_call a c : steps R (PluginInfo_call a c).
Proof.
  unfold PluginInfo_call. apply steps_bind; [done|apply R_set_cls|]. intros _.
  apply steps_bind; [done|apply steps__register_a_plugin|intros; apply steps_ret].
Qed.

Lemma steps_add_a_plugin_instance chain a : steps R (add_a_plugin_instance chain a).
Proof.
  unfold add_a_plugin_instance.
  apply steps_bind; [done|apply steps__load_me_later|intros; apply steps_ret].
Qed.

Lemma steps_add_a_plugin chain ptype submodule tgs kw :
  steps R (add_a_plugin chain ptype submodule tgs kw).
Proof.
  unfold add_a_plugin. destruct (has_key _ kw); [apply steps_raise|].
  apply steps_bind; [done|apply steps_PluginInfo_init|].
  intros a. apply steps_bind; [done|apply steps_add_a_plugin_instance|].
  intros; apply steps_ret.
Qed.

End Steps.

(** *** The state only grows *)

Lemma same_declaration_refl d : same_declaration d d.
Proof. by repeat split. Qed.

Lemma same_declaration_trans d1 d2 d3 :
  same_declaration d1 d2 → same_declaration d2 d3 → same_declaration d1 d3.
Proof.
  intros (?&?&?&?&?) (?&?&?&?&?). repeat split; try congruence. auto.
Qed.

#[local] Instance grows_preorder : PreOrder grows.
Proof.
  split.
  - intros w. split; [|split; [|split]]; try done.
    + intros a d Ha. exists d. split; [done|apply same_declaration_refl].
    + intros m mg Hm. exists mg. by repeat split.
  - intros w1 w2 w3 (Hi & Hm & Hp & Hl) (Hi' & Hm' & Hp' & Hl').
    split; [|split; [|split]].
    + intros a d Ha. destruct (Hi a d Ha) as (d2 & Ha2 & Hd2).
      destruct (Hi' a d2 Ha2) as (d3 & Ha3 & Hd3).
      exists d3. split; [done|by eapply same_declaration_trans].
    + intros m mg Hmg. destruct (Hm m mg Hmg) as (mg2 & Hmg2 & Hn2 & Hr2).
      destruct (Hm' m mg2 Hmg2) as (mg3 & Hmg3 & Hn3 & Hr3).
      exists mg3. split; [done|]. split; [congruence|].
      intros k. by transitivity (registered (registry mg2) k).
    + auto.
    + by transitivity (imported w2).
Qed.

(** A state that differs in the pending lists only has grown. *)
Lemma grows_same w w' :
  infos w' = infos w → managers w' = managers w →
  PLUG_IN_MANAGERS w' = PLUG_IN_MANAGERS w → imported w' = imported w →
  grows w w'.
Proof.
  intros Hi Hm Hp Hl. split; [|split; [|split]].
  - intros a d Ha. exists d. rewrite Hi. split; [done|apply same_declaration_refl].
  - intros m mg Hmg. exists mg. rewrite Hm. by repeat split.
  - intros t. by rewrite Hp.
  - by rewrite Hl.
Qed.

Lemma grows_set_cls a c : steps grows (set_cls a c).
Proof.
  intros w r w' Hrun. unfold set_cls in Hrun. munfold.
  destruct (infos w !! a) as [d|] eqn:Ha; inversion Hrun; subst; [|reflexivity].
  split; [|split; [|split]]; try done.
  - intros b db Hb. destruct (decide (b = a)) as [->|Hne].
    + exists (with_cls c d). split.
      * simpl. apply list_lookup_insert_eq. by eapply lookup_lt_Some.
      * assert (db = d) as -> by congruence. by repeat split.
    + exists db. split; [|apply same_declaration_refl].
      simpl. by rewrite list_lookup_insert_ne.
  - intros m mg Hm. exists mg. by repeat split.
Qed.

Lemma grows_registry_append m key a : steps grows (registry_append m key a).
Proof.
  intros w r w' Hrun. unfold registry_append in Hrun. munfold.
  destruct (managers w !! m) as [mg|] eqn:Hm; inversion Hrun; subst; [|reflexivity].
  split; [|split; [|split]]; try done.
  - intros b db Hb. exists db. split; [done|apply same_declaration_refl].
  - intros m' mg' Hm'. destruct (decide (m' = m)) as [->|Hne].
    + exists (with_registry (dd_append key a) mg). split.
      * simpl. apply list_lookup_insert_eq. by eapply lookup_lt_Some.
      * assert (mg' = mg) as -> by congruence. split; [done|].
        intros k. simpl. rewrite registered_dd_append. by apply prefix_app_r.
    + exists mg'. split; [|done]. simpl. by rewrite list_lookup_insert_ne.
Qed.

Lemma grows_new_info d w : grows w (with_infos (λ l, l ++ [d])%list w).
Proof.
  split; [|split; [|split]]; try done.
  - intros a da Ha. exists da. split; [|apply same_declaration_refl].
    simpl. by apply lookup_app_l_Some.
  - intros m mg Hm. exists mg. by repeat split.
Qed.

Lemma grows_new_manager mg0 w : grows w (with_managers (λ l, l ++ [mg0])%list w).
Proof.
  split; [|split; [|split]]; try done.
  - intros a da Ha. exists da. split; [done|apply same_declaration_refl].
  - intros m mg Hm. exists mg. split; [|done]. simpl. by apply lookup_app_l_Some.
Qed.

Lemma grows_directory t m w : grows w (with_directory (λ d, <[t := m]> d) w).
Proof.
  split; [|split; [|split]]; try done.
  - intros a da Ha. exists da. split; [done|apply same_declaration_refl].
  - intros m' mg Hm. exists mg. by repeat split.
  - intros t' Ht'. simpl. destruct (decide (t = t')) as [->|Hne].
    + rewrite lookup_insert_eq. by eexists.
    + by rewrite lookup_insert_ne.
Qed.

Lemma grows_imported path w : grows w (with_imported (λ l, l ++ [path])%list w).
Proof.
  split; [|split; [|split]]; try done.
  - intros a da Ha. exists da. split; [done|apply same_declaration_refl].
  - intros m' mg Hm. exists mg. by repeat split.
  - simpl. by apply prefix_app_r.
Qed.

(** X10.  Every operation of the module, whatever its outcome, only grows
    the state: descriptors and managers are never removed, a descriptor
    keeps its plugin type, import path, properties and tags and does not
    lose its class, the list under each key of each registry is only
    extended at its end, no type leaves the directory of managers, and
    loader calls are only added. *)
Theorem operations_only_grow :
  (∀ ptype path tgs kw, steps grows (PluginInfo_init ptype path tgs kw)) ∧
  (∀ a c, steps grows (PluginInfo_call a c)) ∧
  (∀ chain ptype submodule tgs kw,
     steps grows (add_a_plugin chain ptype submodule tgs kw)) ∧
  (∀ chain a, steps grows (add_a_plugin_instance chain a)) ∧
  (∀ ptype, steps grows (PluginManager_init ptype)) ∧
  (∀ self a, steps grows (load_me_later self a)) ∧
  (∀ self c a, steps grows (register_a_plugin self c a)) ∧
  (∀ self a, steps grows (dynamic_load_library do_import_class self a)) ∧
  (∀ self key library kw,
     steps grows (load_me_now do_import_class self key library kw)) ∧
  (∀ self key kw,
     steps grows (get_a_plugin do_import_class construct self key kw)).
Proof.
  assert (Hcached : ∀ f w, grows w (with_cached f w))
    by (intros; by apply grows_same).
  assert (Hmgr : ∀ ptype w,
            grows w (with_managers
                       (λ l, l ++ [ {| plugin_name := ptype; registry := ∅ |} ])%list w))
    by (intros; apply grows_new_manager).
  repeat apply conj; intros.
  - apply steps_PluginInfo_init; [apply _|apply grows_new_info].
  - apply steps_PluginInfo_call;
      auto using grows_set_cls, grows_registry_append; apply _.
  - apply steps_add_a_plugin;
      auto using grows_registry_append, grows_new_info; apply _.
  - apply steps_add_a_plugin_instance;
      auto using grows_registry_append; apply _.
  - apply steps_PluginManager_init;
      auto using grows_registry_append, grows_directory; apply _.
  - apply steps_load_me_later; auto using grows_registry_append; apply _.
  - apply steps_register_a_plugin;
      auto using grows_set_cls, grows_registry_append; apply _.
  - apply steps_dynamic_load_library;
      auto using grows_set_cls, grows_imported; apply _.
  - apply steps_load_me_now; auto using grows_set_cls, grows_imported; apply _.
  - apply steps_get_a_plugin; auto using grows_set_cls, grows_imported; apply _.
Qed.

(** *** Registries hold no empty list *)

#[local] Instance keeps_preorder (P : World → Prop) : PreOrder (keeps P).
Proof. split; unfold keeps; [by intros w|intros w1 w2 w3; auto]. Qed.

Lemma keeps_registries_same w w' :
  managers w' = managers w → keeps registries_ok w w'.
Proof. intros Hm Hok m mg. rewrite Hm. apply Hok. Qed.

Lemma keeps_registries_set_cls a c : steps (keeps registries_ok) (set_cls a c).
Proof.
  intros w r w' Hrun. apply keeps_registries_same.
  unfold set_cls in Hrun. munfold.
  by destruct (infos w !! a); inversion Hrun; subst.
Qed.

Lemma keeps_registries_append m key a :
  steps (keeps registries_ok) (registry_append m key a).
Proof.
  intros w r w' Hrun Hok. unfold registry_append in Hrun. munfold.
  destruct (managers w !! m) as [mg|] eqn:Hm; inversion Hrun; subst; [|done].
  intros m' mg'. simpl. destruct (decide (m' = m)) as [->|Hne].
  - rewrite list_lookup_insert_eq by (by eapply lookup_lt_Some).
    intros [= <-]. simpl. apply dd_append_nonempty. by apply (Hok m).
  - rewrite list_lookup_insert_ne by done. apply Hok.
Qed.

Lemma keeps_registries_new_manager ptype w :
  keeps registries_ok w
    (with_managers (λ l, l ++ [ {| plugin_name := ptype; registry := ∅ |} ])%list w).
Proof.
  intros Hok m mg. simpl. intros Hm.
  apply lookup_app_Some in Hm as [Hm|[_ Hm]]; [by apply (Hok m)|].
  apply list_lookup_singleton_Some in Hm as [_ <-]. intros k l. simpl.
  by rewrite lookup_empty.
Qed.

(** X11.  No registry ever holds an empty list: the empty state has none,
    and every operation of the module, whatever its outcome, keeps it so.
    A key present in a registry therefore always has a first descriptor. *)
Theorem registries_never_hold_empty_lists :
  registries_ok empty_world ∧
  (∀ ptype path tgs kw,
     steps (keeps registries_ok) (PluginInfo_init ptype path tgs kw)) ∧
  (∀ a c, steps (keeps registries_ok) (PluginInfo_call a c)) ∧
  (∀ chain ptype submodule tgs kw,
     steps (keeps registries_ok) (add_a_plugin chain ptype submodule tgs kw)) ∧
  (∀ chain a, steps (keeps registries_ok) (add_a_plugin_instance chain a)) ∧
  (∀ ptype, steps (keeps registries_ok) (PluginManager_init ptype)) ∧
  (∀ self a, steps (keeps registries_ok) (load_me_later self a)) ∧
  (∀ self c a, steps (keeps registries_ok) (register_a_plugin self c a)) ∧
  (∀ self key library kw,
     steps (keeps registries_ok)
       (load_me_now do_import_class self key library kw)) ∧
  (∀ self key kw,
     steps (keeps registries_ok)
       (get_a_plugin do_import_class construct self key kw)).
Proof.
  assert (Hsame : ∀ f : World → World, (∀ w, managers (f w) = managers w) →
            ∀ w, keeps registries_ok w (f w))
    by (intros f Hf w; by apply keeps_registries_same).
  assert (Hinfo : ∀ d w, keeps registries_ok w (with_infos (λ l, l ++ [d])%list w))
    by (intros; by apply keeps_registries_same).
  assert (Hdir : ∀ t m w,
            keeps registries_ok w (with_directory (λ d, <[t := m]> d) w))
    by (intros; by apply keeps_registries_same).
  assert (Hcached : ∀ f w, keeps registries_ok w (with_cached f w))
    by (intros; by apply keeps_registries_same).
  assert (Himp : ∀ path w,
            keeps registries_ok w (with_imported (λ l, l ++ [path])%list w))
    by (intros; by apply keeps_registries_same).
  repeat apply conj; intros.
  - intros m mg Hm. simpl in Hm. by rewrite lookup_nil in Hm.
  - apply steps_PluginInfo_init; [apply _|done].
  - apply steps_PluginInfo_call;
      auto using keeps_registries_set_cls, keeps_registries_append; apply _.
  - apply steps_add_a_plugin; auto using keeps_registries_append; apply _.
  - apply steps_add_a_plugin_instance; auto using keeps_registries_append; apply _.
  - apply steps_PluginManager_init;
      auto using keeps_registries_append, keeps_registries_new_manager; apply _.
  - apply steps_load_me_later; auto using keeps_registries_append; apply _.
  - apply steps_register_a_plugin;
      auto using keeps_registries_set_cls, keeps_registries_append; apply _.
  - apply steps_load_me_now; auto using keeps_registries_set_cls; apply _.
  - apply steps_get_a_plugin; auto using keeps_registries_set_cls; apply _.
Qed.

(** X12.  Without a library (none given, or the empty string) the only
    [Exception] a lookup raises itself is the one of [raise_exception]: when
    no list of the registry is empty, a lookup that raises the built-in
    [Exception] was made on a key the registry does not hold, carries the
    not-found message and has changed nothing.  The branch
    [... is not installed] is reached with a library only. *)
Theorem load_me_now_not_installed_needs_library
    self key library kw w mg msg w' :
  managers w !! self = Some mg →
  nonempty_lists (registry mg) →
  Str.truthy_opt library = false →
  load_me_now do_import_class self key library kw w = (Raise (Exception msg), w') →
  registry mg !! Str.lower key = None ∧
  msg = "No " +:+ plugin_name mg +:+ " is found for " +:+ key ∧
  w' = w.
Proof.
  intros Hm Hne Hlib Hrun.
  destruct (registry mg !! Str.lower key) as [l|] eqn:Hl.
  - rewrite (load_me_now_registered _ _ _ _ _ _ _ Hm Hl) in Hrun.
    destruct l as [|a rest]; [by destruct (Hne _ _ Hl)|].
    simpl in Hrun. munfold.
    destruct (dynamic_load_library do_import_class self a w) as [[c|e|] w1] eqn:Hload.
    + by rewrite (library_mismatch_falsy _ _ Hlib) in Hrun.
    + inversion Hrun; subst.
      by destruct (dynamic_load_library_not_Exception _ _ _ _ _ Hload).
    + done.
  - rewrite (load_me_now_unregistered _ _ _ _ _ _ Hm Hl) in Hrun.
    by inversion Hrun.
Qed.

(** *** A type with a manager has no pending list *)

#[local] Instance same_directory_preorder : PreOrder same_directory.
Proof.
  split.
  - by intros w.
  - intros w1 w2 w3 [Hp Hc] [Hp' Hc']. split; congruence.
Qed.

Lemma same_directory_keeps w w' :
  same_directory w w' → keeps directory_ok w w'.
Proof. intros [Hp Hc] Hok t. rewrite Hp, Hc. apply Hok. Qed.

Lemma same_directory_set_cls a c : steps same_directory (set_cls a c).
Proof.
  intros w r w' Hrun. unfold set_cls in Hrun. munfold.
  by destruct (infos w !! a); inversion Hrun; subst.
Qed.

Lemma same_directory_registry_append m key a :
  steps same_directory (registry_append m key a).
Proof.
  intros w r w' Hrun. unfold registry_append in Hrun. munfold.
  by destruct (managers w !! m); inversion Hrun; subst.
Qed.

(** Queueing a descriptor for a type that has no manager keeps the
    directory consistent. *)
Lemma keeps_directory_queue t a w :
  PLUG_IN_MANAGERS w !! t = None →
  keeps directory_ok w (with_cached (dd_append t a) w).
Proof.
  intros Hp Hok t' Ht'. simpl in *. unfold dd_append.
  rewrite lookup_insert_ne; [by apply Hok|].
  intros ->. rewrite Hp in Ht'. by destruct Ht'.
Qed.

Lemma keeps_directory__load_me_later a : steps (keeps directory_ok) (_load_me_later a).
Proof.
  intros w r w' Hrun. unfold _load_me_later in Hrun. munfold.
  destruct (infos w !! a) as [d|]; [|by inversion Hrun; subst].
  destruct (PLUG_IN_MANAGERS w !! plugin_type d) as [m|] eqn:Hp.
  - apply same_directory_keeps.
    eapply (steps_load_me_later same_directory); [|exact Hrun].
    apply same_directory_registry_append.
  - destruct (absolute_import_path d); inversion Hrun; subst; [|done].
    by apply keeps_directory_queue.
Qed.

Lemma keeps_directory__register_a_plugin a c :
  steps (keeps directory_ok) (_register_a_plugin a c).
Proof.
  intros w r w' Hrun. unfold _register_a_plugin in Hrun. munfold.
  destruct (infos w !! a) as [d|]; [|by inversion Hrun; subst].
  destruct (PLUG_IN_MANAGERS w !! plugin_type d) as [m|] eqn:Hp.
  - apply same_directory_keeps.
    eapply (steps_register_a_plugin same_directory); [| |exact Hrun].
    + apply same_directory_set_cls.
    + apply same_directory_registry_append.
  - inversion Hrun; subst. by apply keeps_directory_queue.
Qed.

(** A manager creation that returns leaves the directory consistent. *)
Lemma keeps_directory__register_class self w w' :
  _register_class self w = (Ret tt, w') → keeps directory_ok w w'.
Proof.
  intros Hrun Hok. unfold _register_class in Hrun. munfold.
  destruct (managers w !! self) as [mg|]; [|done]. simpl in Hrun.
  destruct (CACHED_PLUGIN_INFO w !! plugin_name mg) as [l|] eqn:Hc.
  - destruct (_register_class_loop self l _) as [[[]|e|] w2] eqn:Hloop; try done.
    inversion Hrun; subst.
    destruct (steps__register_class_loop same_directory
                same_directory_registry_append self l _ _ _ Hloop) as [Hp2 Hc2].
    intros t Ht. simpl in *. rewrite Hc2.
    destruct (decide (t = plugin_name mg)) as [->|Hne].
    + by rewrite lookup_delete_eq.
    + rewrite lookup_delete_ne by done. apply Hok.
      rewrite Hp2 in Ht. by rewrite lookup_insert_ne in Ht.
  - inversion Hrun; subst. intros t Ht. simpl in *.
    destruct (decide (t = plugin_name mg)) as [->|Hne]; [done|].
    apply Hok. by rewrite lookup_insert_ne in Ht.
Qed.

(** X13.  A type that has a manager has no pending list.  This holds of
    the empty state, is kept by declarations ([_load_me_later], the
    decorator, the chain builder) and by lookups whatever their outcome,
    and is kept by the creation of a manager when it returns. *)
Theorem managed_types_have_no_pending_list :
  directory_ok empty_world ∧
  (∀ a, steps (keeps directory_ok) (_load_me_later a)) ∧
  (∀ a c, steps (keeps directory_ok) (PluginInfo_call a c)) ∧
  (∀ chain ptype submodule tgs kw,
     steps (keeps directory_ok) (add_a_plugin chain ptype submodule tgs kw)) ∧
  (∀ self key library kw,
     steps (keeps directory_ok) (load_me_now do_import_class self key library kw)) ∧
  (∀ self key kw,
     steps (keeps directory_ok)
       (get_a_plugin do_import_class construct self key kw)) ∧
  (∀ ptype w self w',
     PluginManager_init ptype w = (Ret self, w') → keeps directory_ok w w').
Proof.
  repeat apply conj; intros.
  - intros t _. apply lookup_empty.
  - apply keeps_directory__load_me_later.
  - unfold PluginInfo_call. apply steps_bind; [apply _| |intros _].
    { intros w r w' Hrun. apply same_directory_keeps.
      by eapply same_directory_set_cls. }
    apply steps_bind; [apply _|apply keeps_directory__register_a_plugin|].
    intros _. by apply steps_pure; [apply _|].
  - unfold add_a_plugin, add_a_plugin_instance.
    destruct (has_key _ kw); [by apply steps_pure; [apply _|]|].
    apply steps_bind; [apply _| |intros a].
    { intros w r w' Hrun. apply same_directory_keeps.
      eapply (steps_PluginInfo_init same_directory); [|exact Hrun]. done. }
    apply steps_bind; [apply _| |intros _; by apply steps_pure; [apply _|]].
    apply steps_bind; [apply _|apply keeps_directory__load_me_later|].
    intros _. by apply steps_pure; [apply _|].
  - intros w r w' Hrun. apply same_directory_keeps.
    eapply (steps_load_me_now same_directory); [| |exact Hrun].
    + apply same_directory_set_cls.
    + done.
  - intros w r w' Hrun. apply same_directory_keeps.
    eapply (steps_get_a_plugin same_directory); [| |exact Hrun].
    + apply same_directory_set_cls.
    + done.
  - unfold PluginManager_init in H. munfold. simpl in H.
    destruct (_register_class _ _) as [[[]|e|] w2] eqn:Hreg; try done.
    inversion H; subst. intros Hok.
    apply (keeps_directory__register_class _ _ _ Hreg).
    intros t Ht. by apply Hok.
Qed.

(** ** Package names and the chain builder *)

Lemma split_dot_head_no_dot s : has_char "." (Str.split_dot_head s) = false.
Proof.
  induction s as [|c s IH]; [done|]. simpl.
  destruct (Ascii.eqb c ".") eqn:Hc; [done|]. simpl. by rewrite Hc.
Qed.

Lemma split_dot_head_id s : has_char "." s = false → Str.split_dot_head s = s.
Proof.
  induction s as [|c s IH]; [done|]. simpl. intros H.
  apply orb_false_iff in H as [-> Hs]. by rewrite IH.
Qed.

Lemma split_dot_head_app s t :
  Str.split_dot_head (s +:+ "." +:+ t) = Str.split_dot_head s.
Proof.
  induction s as [|c s IH]; [done|]. simpl.
  destruct (Ascii.eqb c "."); [done|]. by rewrite IH.
Qed.

Lemma replace_underscore_clean s :
  has_char "_" (Str.replace_underscore s) = false ∧
  (has_char "." s = false → has_char "." (Str.replace_underscore s) = false).
Proof.
  induction s as [|c s [IH1 IH2]]; [done|]. simpl. split.
  - rewrite IH1. by destruct (Ascii.eqb c "_") eqn:Hc; [|rewrite Hc].
  - intros H. apply orb_false_iff in H as [Hc Hs]. rewrite (IH2 Hs).
    by destruct (Ascii.eqb c "_"); [|rewrite Hc].
Qed.

Lemma replace_underscore_id s :
  has_char "_" s = false → Str.replace_underscore s = s.
Proof.
  induction s as [|c s IH]; [done|]. simpl. intros H.
  apply orb_false_iff in H as [-> Hs]. by rewrite IH.
Qed.

(** X14.  The package name computed from a module path contains neither
    a dot nor an underscore, depends on the top-level segment of the path
    only, and is left as it is when the function is applied again. *)
Theorem package_name_normal_form s t :
  has_char "." (_get_me_pypi_package_name s) = false ∧
  has_char "_" (_get_me_pypi_package_name s) = false ∧
  _get_me_pypi_package_name (s +:+ "." +:+ t) = _get_me_pypi_package_name s ∧
  _get_me_pypi_package_name (_get_me_pypi_package_name s)
    = _get_me_pypi_package_name s.
Proof.
  unfold _get_me_pypi_package_name.
  destruct (replace_underscore_clean (Str.split_dot_head s)) as [Hu Hd].
  specialize (Hd (split_dot_head_no_dot s)).
  split; [done|]. split; [done|]. split; [by rewrite split_dot_head_app|].
  by rewrite (split_dot_head_id _ Hd), (replace_underscore_id _ Hu).
Qed.

Lemma package_name_clean s :
  has_char "." (_get_me_pypi_package_name s) = false ∧
  has_char "_" (_get_me_pypi_package_name s) = false.
Proof.
  unfold _get_me_pypi_package_name.
  destruct (replace_underscore_clean (Str.split_dot_head s)) as [Hu Hd].
  split; [|done]. apply Hd, split_dot_head_no_dot.
Qed.

(** X15.  A library name that contains an underscore or a dot matches no
    class: a lookup restricted to it, on a key the registry holds, never
    returns a class. *)
Theorem library_with_underscore_never_matches self key lib kw w mg l r w' :
  has_char "_" lib || has_char "." lib = true →
  managers w !! self = Some mg →
  registry mg !! Str.lower key = Some l →
  load_me_now do_import_class self key (Some lib) kw w = (r, w') →
  ∀ c, r ≠ Ret c.
Proof.
  intros Hlib Hm Hl Hrun c ->.
  rewrite (load_me_now_registered _ _ _ _ _ _ _ Hm Hl) in Hrun.
  destruct (load_me_now_loop_scanned _ _ _ _ _ _ Hrun)
    as (pre & post & _ & _ & a & post' & _ & _ & Hpkg).
  assert (Ht : Str.truthy lib = true) by (by destruct lib).
  specialize (Hpkg Ht). unfold package_of in Hpkg.
  destruct (package_name_clean (__module__ c)) as [Hd Hu].
  rewrite Hpkg in Hd, Hu. rewrite Hd, Hu in Hlib. done.
Qed.

(** X16.  A declaration through the chain builder raises in one case
    only: when its keywords hold [abs_class_path] it raises [TypeError] and
    leaves the state untouched.  Otherwise it never raises and never calls
    the loader: it returns the chain, adds exactly one descriptor,
    unloaded, with import path [chain.submodule], whose [module_name] is
    the top-level segment of the chain's module path; without a manager
    for the type the descriptor goes to the end of the pending list. *)
Theorem add_a_plugin_declares chain ptype submodule tgs kw w :
  (∀ self, PLUG_IN_MANAGERS w !! ptype = Some self → is_Some (managers w !! self)) →
  let d := {| plugin_type := ptype;
              absolute_import_path := Some (_get_abs_path chain submodule);
              cls := None; properties := kw; __tags := tgs |} in
  (has_key "abs_class_path" kw = true →
     add_a_plugin chain ptype submodule tgs kw w = (Raise TypeError, w)) ∧
  (has_key "abs_class_path" kw = false →
     ∃ w',
       add_a_plugin chain ptype submodule tgs kw w = (Ret chain, w') ∧
       infos w' = (infos w ++ [d])%list ∧
       imported w' = imported w ∧
       module_name d = inr (Str.split_dot_head chain) ∧
       (PLUG_IN_MANAGERS w !! ptype = None →
          managers w' = managers w ∧
          registered (CACHED_PLUGIN_INFO w') ptype =
            (registered (CACHED_PLUGIN_INFO w) ptype ++ [length (infos w)])%list)).
Proof.
  intros Hwf d. split.
  { intros Hkw. unfold add_a_plugin. by rewrite Hkw. }
  intros Hkw.
  set (a := length (infos w)).
  set (w0 := with_infos (λ ds, ds ++ [d])%list w).
  assert (Ha0 : infos w0 !! a = Some d) by (simpl; by apply list_lookup_middle).
  assert (Hvd : valid_info d = true).
  { unfold valid_info. simpl. by rewrite truthy_abs_path. }
  assert (Hmod : module_name d = inr (Str.split_dot_head chain)).
  { unfold module_name. simpl. rewrite truthy_abs_path.
    unfold _get_abs_path. by rewrite split_dot_head_app. }
  assert (Hrun : ∀ w', _load_me_later a w0 = (Ret tt, w') →
            add_a_plugin chain ptype submodule tgs kw w = (Ret chain, w')).
  { intros w' Hw'. unfold add_a_plugin. rewrite Hkw.
    unfold add_a_plugin_instance, PluginInfo_init.
    munfold. change (_load_me_later _ _) with (_load_me_later a w0).
    by rewrite Hw'. }
  destruct (PLUG_IN_MANAGERS w !! ptype) as [self|] eqn:Hp.
  - destruct (Hwf self eq_refl) as [mg Hm].
    eexists. split.
    + apply Hrun. by apply (_load_me_later_indexes a w0 d self mg).
    + done.
  - eexists. split.
    + apply Hrun. by destruct (_load_me_later_queues a w0 d _ Ha0 Hp eq_refl).
    + repeat split; try done.
      simpl. rewrite registered_dd_append. by rewrite decide_True.
Qed.

(** ** The scan stops at the first match *)

Lemma load_me_now_loop_imports self library l w r w' :
  load_me_now_loop do_import_class self library l w = (r, w') →
  (length (new_imports w w') ≤ length l)%nat.
Proof.
  revert w. induction l as [|a rest IH]; intros w Hrun; simpl in Hrun.
  - munfold. inversion Hrun; subst. by rewrite new_imports_refl.
  - munfold.
    destruct (dynamic_load_library do_import_class self a w) as [ro w1] eqn:Hload.
    destruct (dynamic_load_library_frame _ _ _ _ _ Hload)
      as (_ & _ & _ & _ & new & Hnew & Hlen).
    assert (Hone : (length (new_imports w w1) ≤ S (length rest))%nat)
      by (rewrite (new_imports_one _ _ _ Hnew); lia).
    destruct ro as [c|e|]; [|by inversion Hrun; subst..].
    destruct (library_mismatch library _); [|by inversion Hrun; subst].
    destruct (load_me_now_loop_frame _ _ _ _ _ _ Hrun) as (_ & _ & _ & _ & _ & Himp).
    destruct (new_imports_app _ _ _ _ Hnew Himp) as [-> _].
    rewrite length_app. specialize (IH _ Hrun). simpl. lia.
Qed.

(** Under the hypotheses of a match at [a], what follows [a] in the list
    plays no part. *)
Lemma load_me_now_loop_cut self lib pre a post c w :
  Str.truthy lib = true →
  (∀ b, b ∈ pre → of_other_package do_import_class w lib b) →
  resolves_to do_import_class w a c →
  package_of c = lib →
  load_me_now_loop do_import_class self (Some lib) (pre ++ a :: post) w =
  load_me_now_loop do_import_class self (Some lib) (pre ++ [a]) w.
Proof.
  intros Ht. revert w. induction pre as [|b pre IH]; intros w Hpre Ha Hpkg; simpl.
  - destruct (resolves_to_load self a w c Ha) as (w1 & Hrun).
    munfold. rewrite Hrun. cbv beta zeta iota.
    rewrite (library_mismatch_Some _ _ Ht).
    fold (package_of c). by rewrite bool_decide_eq_true_2.
  - destruct (Hpre b) as (cb & Hb & Hne); [by left|].
    destruct (resolves_to_load self b w cb Hb) as (w1 & Hrun).
    munfold. rewrite Hrun. cbv beta zeta iota.
    rewrite (library_mismatch_Some _ _ Ht).
    fold (package_of cb). rewrite bool_decide_eq_false_2 by done. simpl.
    apply IH; [|by eapply resolves_to_mono|done].
    intros b' Hb'. destruct (Hpre b') as (cb' & Hres & Hne'); [by right|].
    exists cb'. split; [by eapply resolves_to_mono|done].
Qed.

(** X17.  A lookup restricted to a library goes no further than the
    first match: the descriptors that are neither the match nor before it
    in the list are left as they were, in particular not loaded, and the
    loader is called at most once per descriptor up to the match. *)
Theorem load_me_now_stops_at_match self key lib kw w mg pre a post c :
  Str.truthy lib = true →
  managers w !! self = Some mg →
  registry mg !! Str.lower key = Some (pre ++ a :: post)%list →
  (∀ b, b ∈ pre → of_other_package do_import_class w lib b) →
  resolves_to do_import_class w a c →
  package_of c = lib →
  ∃ w',
    load_me_now do_import_class self key (Some lib) kw w = (Ret c, w') ∧
    (∀ b, b ∉ (pre ++ [a])%list → infos w' !! b = infos w !! b) ∧
    (length (new_imports w w') ≤ length pre + 1)%nat.
Proof.
  intros Ht Hm Hl Hpre Ha Hpkg.
  rewrite (load_me_now_registered _ _ _ _ _ _ _ Hm Hl).
  rewrite (load_me_now_loop_cut self lib pre a post c w Ht Hpre Ha Hpkg).
  destruct (load_me_now_loop_finds self lib pre a [] c w Ht Hpre Ha Hpkg)
    as (w' & Hrun).
  exists w'. split; [done|].
  destruct (load_me_now_loop_frame _ _ _ _ _ _ Hrun) as (_ & _ & _ & _ & Hi & _).
  split; [done|].
  assert (Hlen := load_me_now_loop_imports _ _ _ _ _ _ Hrun).
  by rewrite length_app in Hlen.
Qed.

(** ** One descriptor under several tags *)


(** X19.  [register_a_plugin] stores the class inside its loop over the
    tags: on a descriptor with an empty tag sequence it changes nothing at
    all, the class is not even stored on the descriptor; on a descriptor
    with at least one tag the class is stored and the descriptor appended
    under each lower-cased tag. *)
Theorem register_a_plugin_per_tag self c a w d mg :
  infos w !! a = Some d →
  managers w !! self = Some mg →
  (tags d = [] → register_a_plugin self c a w = (Ret tt, w)) ∧
  (tags d ≠ [] →
     register_a_plugin self c a w =
       (Ret tt,
        with_managers (λ l, <[self := with_registry (indexed a (tags d)) mg]> l)
          (with_infos (λ l, <[a := with_cls c d]> l) w))).
Proof.
  intros Ha Hm. unfold register_a_plugin. munfold. rewrite Ha. split.
  - by intros ->.
  - destruct (tags d) as [|t ts]; [done|]. intros _. simpl. munfold.
    rewrite (set_cls_eq _ _ _ _ Ha).
    set (w1 := with_infos (λ l, <[a := with_cls c d]> l) w).
    assert (Ha1 : infos w1 !! a = Some (with_cls c d)).
    { simpl. apply list_lookup_insert_eq. by eapply lookup_lt_Some. }
    assert (Hm1 : managers w1 !! self = Some mg) by done.
    rewrite (registry_append_eq _ _ _ _ _ Hm1).
    erewrite (register_a_plugin_loop_eq self c a ts _ (with_cls c d)); [|done|done|].
    2:{ simpl. apply list_lookup_insert_eq. by eapply lookup_lt_Some. }
    by rewrite with_managers_insert_insert.
Qed.

End PluginFacts.

(** ** The statements on the scenario *)

Lemma scenario_manager :
  managers Scenario.world !! 0 = Some Scenario.manager.
Proof. vm_compute. reflexivity. Qed.

Lemma scenario_xml :
  registry Scenario.manager !! Str.lower "xml" = Some [0; 1].
Proof. vm_compute. reflexivity. Qed.

Lemma scenario_unresolved_a :
  unresolved_in Scenario.world 0 "a_xml.reader.Reader".
Proof. eexists. split; [vm_compute; reflexivity|]. split; reflexivity. Qed.

Lemma scenario_unresolved_b :
  unresolved_in Scenario.world 1 "b_xml.Reader".
Proof. eexists. split; [vm_compute; reflexivity|]. split; reflexivity. Qed.

Lemma scenario_resolves_a :
  resolves_to Scenario.loader Scenario.world 0 Scenario.class_a.
Proof.
  right. exists "a_xml.reader.Reader". split; [apply scenario_unresolved_a|reflexivity].
Qed.

Lemma scenario_resolves_b :
  resolves_to Scenario.loader Scenario.world 1 Scenario.class_b.
Proof.
  right. exists "b_xml.Reader". split; [apply scenario_unresolved_b|reflexivity].
Qed.

(** Neither package of the scenario is [c-xml]. *)
Lemma scenario_no_c_xml b :
  b ∈ [0; 1] → of_other_package Scenario.loader Scenario.world "c-xml" b.
Proof.
  intros Hb. apply elem_of_cons in Hb as [->|Hb].
  - exists Scenario.class_a. split; [apply scenario_resolves_a|].
    vm_compute. discriminate.
  - apply list_elem_of_singleton in Hb as ->.
    exists Scenario.class_b. split; [apply scenario_resolves_b|].
    vm_compute. discriminate.
Qed.

Lemma scenario_scan_fails :
  load_me_now Scenario.loader 0 "xml" (Some "c-xml") [] Scenario.world =
    (Raise (Exception "c-xml is not installed"), Scenario.scanned_world).
Proof. vm_compute. reflexivity. Qed.

Lemma load_me_now_takes_first_witness :
  infos Scenario.world = [Scenario.first; Scenario.second] ∧
  load_me_now Scenario.loader 0 "XML" None [] Scenario.world =
    (Ret Scenario.class_a,
     with_infos (λ l, <[0 := with_cls Scenario.class_a Scenario.first]> l)
       (with_imported (λ l, l ++ ["a_xml.reader.Reader"])%list Scenario.world)) ∧
  infos (snd (load_me_now Scenario.loader 0 "XML" None [] Scenario.world)) =
    [ {| plugin_type := "reader";
         absolute_import_path := Some "a_xml.reader.Reader";
         cls := Some Scenario.class_a; properties := [];
         __tags := Some ["XML"] |};
      Scenario.second ] ∧
  imported (snd (load_me_now Scenario.loader 0 "XML" None [] Scenario.world)) =
    ["a_xml.reader.Reader"].
Proof.
  destruct (load_me_now_takes_first Scenario.loader 0 "XML" [] Scenario.world
              Scenario.manager 0 [1] Scenario.first) as (Htable & _).
  - vm_compute. reflexivity.
  - vm_compute. reflexivity.
  - vm_compute. reflexivity.
  - split; [vm_compute; reflexivity|]. split; [exact Htable|].
    rewrite Htable. split; vm_compute; reflexivity.
Defined.

Lemma dynamic_load_library_once_witness :
  unresolved_in Scenario.world 0 "a_xml.reader.Reader" ∧
  ∃ w1,
    dynamic_load_library Scenario.loader 0 0 Scenario.world
      = (Ret Scenario.class_a, w1) ∧
    resolved_in w1 0 Scenario.class_a ∧
    dynamic_load_library Scenario.loader 0 0 w1 = (Ret Scenario.class_a, w1).
Proof.
  split; [apply scenario_unresolved_a|].
  destruct (dynamic_load_library_once Scenario.loader 0 0 Scenario.world
              "a_xml.reader.Reader" scenario_unresolved_a) as (_ & Hsecond & _).
  apply Hsecond. reflexivity.
Defined.

Lemma load_me_now_failure_keeps_index_witness :
  load_me_now Scenario.loader 0 "xml" (Some "c-xml") [] Scenario.world =
    (Raise (Exception "c-xml is not installed"), Scenario.scanned_world) ∧
  managers Scenario.scanned_world = managers Scenario.world ∧
  PLUG_IN_MANAGERS Scenario.scanned_world = PLUG_IN_MANAGERS Scenario.world ∧
  CACHED_PLUGIN_INFO Scenario.scanned_world = CACHED_PLUGIN_INFO Scenario.world.
Proof.
  split; [apply scenario_scan_fails|].
  destruct (load_me_now_failure_keeps_index Scenario.loader Scenario.ctor
              0 "xml" (Some "c-xml") [] Scenario.world _ _ scenario_scan_fails)
    as (Hm & _ & Hp & Hc & _).
  repeat split; assumption.
Defined.

Lemma load_me_now_scan_caches_witness :
  ∃ scanned rest,
    [0; 1] = (scanned ++ rest)%list ∧
    (∀ b, b ∈ scanned →
       ∃ cb, loaded_between Scenario.loader Scenario.world
               Scenario.scanned_world b cb ∧
             package_of cb ≠ "c-xml") ∧
    rest = [] ∧ "c-xml is not installed" = "c-xml" +:+ " is not installed".
Proof.
  apply (load_me_now_scan_caches Scenario.loader 0 "xml" "c-xml" []
           Scenario.world Scenario.manager [0; 1]
           (Raise (Exception "c-xml is not installed")) Scenario.scanned_world).
  - apply scenario_manager.
  - apply scenario_xml.
  - apply scenario_scan_fails.
Defined.

Lemma load_me_now_first_of_library_witness :
  (∃ w', load_me_now Scenario.loader 0 "xml" (Some "b-xml") [] Scenario.world =
           (Ret Scenario.class_b, w')) ∧
  load_me_now Scenario.loader 0 "xml" (Some "") [] Scenario.world
    = load_me_now Scenario.loader 0 "xml" None [] Scenario.world ∧
  (∃ w', load_me_now Scenario.loader 0 "xml" (Some "") [] Scenario.world =
           (Ret Scenario.class_a, w') ∧
         resolved_in w' 0 Scenario.class_a).
Proof.
  split.
  - destruct (load_me_now_first_of_library Scenario.loader 0 "xml" "b-xml" []
                Scenario.world Scenario.manager [0; 1] scenario_manager scenario_xml)
      as [Hfilter _].
    destruct (Hfilter eq_refl) as [Hfind _].
    apply (Hfind [0] 1 [] Scenario.class_b).
    + reflexivity.
    + intros b Hb. apply list_elem_of_singleton in Hb as ->.
      exists Scenario.class_a. split; [apply scenario_resolves_a|].
      vm_compute. discriminate.
    + apply scenario_resolves_b.
    + reflexivity.
  - destruct (load_me_now_first_of_library Scenario.loader 0 "xml" "" []
                Scenario.world Scenario.manager [0; 1] scenario_manager scenario_xml)
      as [_ Hempty].
    destruct (Hempty eq_refl 0 [1] eq_refl) as [Hsame Hfirst].
    split; [exact Hsame|]. apply Hfirst, scenario_resolves_a.
Defined.

Lemma load_me_now_failures_same_kind_witness :
  ∃ e1 e2 w',
    load_me_now Scenario.loader 0 "unknownTag" None [] Scenario.world
      = (Raise e1, Scenario.world) ∧
    load_me_now Scenario.loader 0 "xml" (Some "c-xml") [] Scenario.world
      = (Raise e2, w') ∧
    e1 = Exception ("No " +:+ plugin_name Scenario.manager +:+ " is found for "
                      +:+ "unknownTag") ∧
    e2 = Exception ("c-xml" +:+ " is not installed") ∧
    kind_of e1 = KException ∧ kind_of e2 = KException.
Proof.
  apply (load_me_now_failures_same_kind Scenario.loader 0 "unknownTag" "xml"
           "c-xml" None [] [] Scenario.world Scenario.manager [0; 1]).
  - reflexivity.
  - apply scenario_manager.
  - vm_compute. reflexivity.
  - apply scenario_xml.
  - apply scenario_no_c_xml.
Defined.

Lemma tag_case_insensitive_witness :
  Str.lower "XML" = Str.lower "xml" ∧
  load_me_now Scenario.loader 0 "XML" None [] Scenario.world
    = load_me_now Scenario.loader 0 "xml" None [] Scenario.world.
Proof.
  split; [reflexivity|].
  destruct (tag_case_insensitive Scenario.loader 0 "XML" "xml" Scenario.world
              Scenario.manager eq_refl scenario_manager) as (_ & Hsame & _).
  destruct (Hsame [0; 1] None [] scenario_xml) as [H1 H2].
  rewrite H1, H2. reflexivity.
Defined.


Lemma tags_default_witness :
  tags Scenario.untagged = [plugin_type Scenario.untagged] ∧
  ∃ w' mg',
    load_me_later 0 0 Scenario.untagged_world = (Ret tt, w') ∧
    managers w' !! 0 = Some mg' ∧
    registry mg' = dd_append (Str.lower (plugin_type Scenario.untagged)) 0
                     (registry Scenario.fresh_manager) ∧
    ∀ key, 0 ∈ registered (registry mg') (Str.lower key) ↔
             Str.lower key = Str.lower (plugin_type Scenario.untagged) ∨
             0 ∈ registered (registry Scenario.fresh_manager) (Str.lower key).
Proof.
  assert (Ha : infos Scenario.untagged_world !! 0 = Some Scenario.untagged)
    by (vm_compute; reflexivity).
  assert (Hm : managers Scenario.untagged_world !! 0 = Some Scenario.fresh_manager)
    by (vm_compute; reflexivity).
  destruct (tags_default 0 0 Scenario.untagged_world Scenario.untagged
              Scenario.fresh_manager Ha Hm eq_refl) as [Hnone _].
  exact (Hnone eq_refl).
Defined.

(** ** Where the code departs from the specification *)

(** C1, as stated, fails: on the scenario, [get_a_plugin] with a keyword
    argument builds the instance without it. *)
Lemma get_a_plugin_drops_keywords :
  get_a_plugin Scenario.loader Scenario.ctor 0 "xml" [("mode", VStr "r")] Scenario.world
  ≠ getInstance_forwarding Scenario.loader Scenario.ctor 0 "xml" [("mode", VStr "r")]
      Scenario.world.
Proof. vm_compute. discriminate. Qed.

(** C2, as stated, fails for an explicitly empty tag sequence: such a
    descriptor has no tag, and after its declaration its plugin type is not
    a key of the registry. *)
Lemma empty_tags_not_default :
  infos Scenario.empty_tags_world !! 0 = Some Scenario.empty_tagged ∧
  tags Scenario.empty_tagged ≠ [plugin_type Scenario.empty_tagged] ∧
  fst (load_me_now Scenario.loader 0 "reader" None [] Scenario.empty_tags_world)
    = Raise (Exception "No reader is found for reader").
Proof.
  split; [vm_compute; reflexivity|]. split; [vm_compute; discriminate|].
  vm_compute. reflexivity.
Qed.

(** C3, as stated, fails: on the scenario the failure for an unknown tag
    and the failure for a package nobody provides are exceptions of the
    same class. *)
Lemma failures_of_one_kind :
  ¬ (∀ e1 e2 w1 w2,
       load_me_now Scenario.loader 0 "unknownTag" None [] Scenario.world
         = (Raise e1, w1) →
       load_me_now Scenario.loader 0 "xml" (Some "c-xml") [] Scenario.world
         = (Raise e2, w2) →
       kind_of e1 ≠ kind_of e2).
Proof.
  intros Hclaim.
  apply (Hclaim (Exception "No reader is found for unknownTag")
                (Exception "c-xml is not installed")
                Scenario.world Scenario.scanned_world);
    vm_compute; reflexivity.
Qed.

(** C4, as stated, fails for the empty string as library: no class of the
    list is of package [""], yet the lookup returns the first class instead
    of raising. *)
Lemma empty_library_is_no_filter :
  (∀ b, b ∈ [0; 1] → of_other_package Scenario.loader Scenario.world "" b) ∧
  fst (load_me_now Scenario.loader 0 "xml" (Some "") [] Scenario.world)
    = Ret Scenario.class_a ∧
  ¬ (∃ w', load_me_now Scenario.loader 0 "xml" (Some "") [] Scenario.world =
             (Raise (Exception ("" +:+ " is not installed")), w')).
Proof.
  split; [|split; [vm_compute; reflexivity|]].
  2:{ intros [w' Hrun]. apply (f_equal fst) in Hrun. vm_compute in Hrun.
      discriminate. }
  intros b Hb. apply elem_of_cons in Hb as [->|Hb].
  - exists Scenario.class_a. split; [apply scenario_resolves_a|].
    vm_compute. discriminate.
  - apply list_elem_of_singleton in Hb as ->.
    exists Scenario.class_b. split; [apply scenario_resolves_b|].
    vm_compute. discriminate.
Qed.

(** ** Further statements on the scenario *)

Lemma scenario_untagged :
  infos Scenario.untagged_world !! 0 = Some Scenario.untagged.
Proof. vm_compute. reflexivity. Qed.

Lemma scenario_fresh_manager :
  managers Scenario.untagged_world !! 0 = Some Scenario.fresh_manager.
Proof. vm_compute. reflexivity. Qed.

Lemma scenario_declared :
  infos Scenario.declared_world !! 0 = Some Scenario.untagged.
Proof. vm_compute. reflexivity. Qed.

Lemma PluginInfo_call_total_witness :
  ∃ w',
    PluginInfo_call 0 Scenario.class_a Scenario.declared_world
      = (Ret Scenario.class_a, w') ∧
    resolved_in w' 0 Scenario.class_a ∧
    imported w' = imported Scenario.declared_world ∧
    (PLUG_IN_MANAGERS Scenario.declared_world !! plugin_type Scenario.untagged = None →
       managers w' = managers Scenario.declared_world ∧
       registered (CACHED_PLUGIN_INFO w') (plugin_type Scenario.untagged) =
         (registered (CACHED_PLUGIN_INFO Scenario.declared_world)
            (plugin_type Scenario.untagged) ++ [0])%list).
Proof.
  apply (PluginInfo_call_total 0 Scenario.class_a Scenario.declared_world
           Scenario.untagged scenario_declared).
  intros self Hself. vm_compute in Hself. discriminate.
Defined.

Lemma decorated_class_resolves_witness :
  ∃ w',
    PluginInfo_call 0 Scenario.class_a Scenario.untagged_world
      = (Ret Scenario.class_a, w') ∧
    imported w' = imported Scenario.untagged_world ∧
    ∀ key kw, Str.lower key = Str.lower "reader" →
      load_me_now Scenario.loader 0 key None kw w' = (Ret Scenario.class_a, w').
Proof.
  apply (decorated_class_resolves Scenario.loader 0 Scenario.class_a
           Scenario.untagged_world Scenario.untagged 0 Scenario.fresh_manager
           "reader").
  - apply scenario_untagged.
  - vm_compute. reflexivity.
  - apply scenario_fresh_manager.
  - vm_compute. left.
  - vm_compute. reflexivity.
Defined.


Lemma lazy_declared_before_manager_witness :
  ∃ w1 w2,
    add_a_plugin "a_xml" "reader" (Some "reader.Reader") (Some ["XML"]) [] empty_world
      = (Ret "a_xml", w1) ∧
    PluginManager_init "reader" w1 = (Ret (length (managers empty_world)), w2) ∧
    imported w2 = imported empty_world ∧
    ∀ key kwa r w3, Str.lower key = Str.lower "XML" →
      load_me_now Scenario.loader (length (managers empty_world)) key None kwa w2
        = (r, w3) →
      r = match Scenario.loader (_get_abs_path "a_xml" (Some "reader.Reader")) with
          | inl cause => Raise (Unresolvable cause)
          | inr c => Ret c
          end ∧
      imported w3
        = (imported empty_world ++ [_get_abs_path "a_xml" (Some "reader.Reader")])%list.
Proof.
  apply (lazy_declared_before_manager Scenario.loader "a_xml" "reader"
           (Some "reader.Reader") (Some ["XML"]) [] empty_world "XML").
  - reflexivity.
  - vm_compute. reflexivity.
  - intros b Hb. vm_compute in Hb. by apply elem_of_nil in Hb.
  - vm_compute. left.
  - vm_compute. reflexivity.
Defined.

Lemma lazy_declaration_errors_witness :
  _load_me_later 0 Scenario.invalid_managed_world
    = (Raise AttributeError, Scenario.invalid_managed_world).
Proof.
  destruct (lazy_declaration_errors 0 Scenario.invalid_managed_world
              Scenario.invalid_pending) as [_ Hmanaged].
  - vm_compute. reflexivity.
  - apply (Hmanaged 0); [vm_compute; reflexivity|reflexivity].
Defined.

Lemma PluginManager_init_invalid_pending_witness :
  ∃ w' mg,
    PluginManager_init "reader" Scenario.invalid_pending_world
      = (Raise AttributeError, w') ∧
    PLUG_IN_MANAGERS w' !! "reader"
      = Some (length (managers Scenario.invalid_pending_world)) ∧
    CACHED_PLUGIN_INFO w' = CACHED_PLUGIN_INFO Scenario.invalid_pending_world ∧
    managers w' !! length (managers Scenario.invalid_pending_world) = Some mg ∧
    ∀ k, registered (registry mg) k = index_of Scenario.invalid_pending_world k [].
Proof.
  apply (PluginManager_init_invalid_pending "reader" Scenario.invalid_pending_world
           [] 0 [] Scenario.invalid_pending).
  - vm_compute. reflexivity.
  - intros b Hb. by apply elem_of_nil in Hb.
  - vm_compute. reflexivity.
  - reflexivity.
Defined.

Lemma second_manager_starts_empty_witness :
  ∃ w',
    PluginManager_init "reader" Scenario.world
      = (Ret (length (managers Scenario.world)), w') ∧
    0 ≠ length (managers Scenario.world) ∧
    PLUG_IN_MANAGERS w' !! "reader" = Some (length (managers Scenario.world)) ∧
    managers w' !! 0 = Some Scenario.manager ∧
    ∀ key library kw,
      load_me_now Scenario.loader (length (managers Scenario.world)) key library kw w'
        = (Raise (Exception ("No " +:+ "reader" +:+ " is found for " +:+ key)), w').
Proof.
  apply (second_manager_starts_empty Scenario.loader "reader" Scenario.world 0
           Scenario.manager).
  - vm_compute. reflexivity.
  - apply scenario_manager.
  - vm_compute. reflexivity.
Defined.

Lemma load_me_later_twice_witness :
  ∃ w1 w2 mg2,
    load_me_later 0 0 Scenario.untagged_world = (Ret tt, w1) ∧
    load_me_later 0 0 w1 = (Ret tt, w2) ∧
    managers w2 !! 0 = Some mg2 ∧
    ∀ k, registered (registry mg2) k =
           (registered (registry Scenario.fresh_manager) k ++
            entries_for Scenario.untagged_world k 0 ++
            entries_for Scenario.untagged_world k 0)%list.
Proof.
  apply (load_me_later_twice 0 0 Scenario.untagged_world Scenario.untagged
           Scenario.fresh_manager).
  - apply scenario_untagged.
  - apply scenario_fresh_manager.
  - reflexivity.
Defined.

Lemma failed_import_is_retried_witness :
  ∃ w1 w2,
    load_me_now Scenario.loader 0 "YAML" None [] Scenario.broken_world
      = (Raise (Unresolvable "No module named c_xml.Reader"), w1) ∧
    infos w1 = infos Scenario.broken_world ∧
    imported w1 = (imported Scenario.broken_world ++ ["c_xml.Reader"])%list ∧
    load_me_now Scenario.loader 0 "YAML" None [] w1
      = (Raise (Unresolvable "No module named c_xml.Reader"), w2) ∧
    imported w2
      = (imported Scenario.broken_world ++ ["c_xml.Reader"; "c_xml.Reader"])%list.
Proof.
  apply (failed_import_is_retried Scenario.loader 0 "YAML" None []
           Scenario.broken_world Scenario.broken_manager 0 []
           "c_xml.Reader" "No module named c_xml.Reader").
  - exists Scenario.broken. split; [vm_compute; reflexivity|]. split; reflexivity.
  - vm_compute. reflexivity.
  - vm_compute. reflexivity.
  - vm_compute. reflexivity.
Defined.

Lemma load_me_now_not_installed_needs_library_witness :
  registry Scenario.fresh_manager !! Str.lower "xml" = None ∧
  "No reader is found for xml"
    = "No " +:+ plugin_name Scenario.fresh_manager +:+ " is found for " +:+ "xml" ∧
  Scenario.untagged_world = Scenario.untagged_world.
Proof.
  apply (load_me_now_not_installed_needs_library Scenario.loader 0 "xml" (Some "") []
           Scenario.untagged_world Scenario.fresh_manager
           "No reader is found for xml" Scenario.untagged_world).
  - apply scenario_fresh_manager.
  - intros k l Hl. simpl in Hl. by rewrite lookup_empty in Hl.
  - reflexivity.
  - vm_compute. reflexivity.
Defined.

Lemma library_with_underscore_never_matches_witness :
  load_me_now Scenario.loader 0 "xml" (Some "a_xml") [] Scenario.world
    = (Raise (Exception "a_xml is not installed"), Scenario.scanned_world) ∧
  ∀ c : Handle, Raise (Exception "a_xml is not installed") ≠ Ret c.
Proof.
  assert (Hrun : load_me_now Scenario.loader 0 "xml" (Some "a_xml") [] Scenario.world
                 = (Raise (Exception "a_xml is not installed"), Scenario.scanned_world))
    by (vm_compute; reflexivity).
  split; [exact Hrun|].
  apply (library_with_underscore_never_matches Scenario.loader 0 "xml" "a_xml" []
           Scenario.world Scenario.manager [0; 1] _ Scenario.scanned_world).
  - reflexivity.
  - apply scenario_manager.
  - apply scenario_xml.
  - exact Hrun.
Defined.

Lemma scenario_directory self :
  PLUG_IN_MANAGERS Scenario.world !! "reader" = Some self →
  is_Some (managers Scenario.world !! self).
Proof.
  intros Hself. vm_compute in Hself. injection Hself as <-.
  rewrite scenario_manager. by eexists.
Qed.

Lemma add_a_plugin_declares_witness :
  add_a_plugin "b_xml" "reader" (Some "Reader") None
    [("abs_class_path", VStr "b_xml.Writer")] Scenario.world
    = (Raise TypeError, Scenario.world) ∧
  ∃ w',
    add_a_plugin "b_xml" "reader" (Some "Reader") None [("mode", VStr "r")]
      Scenario.world = (Ret "b_xml", w') ∧
    infos w' =
      (infos Scenario.world ++
       [ {| plugin_type := "reader";
            absolute_import_path := Some (_get_abs_path "b_xml" (Some "Reader"));
            cls := None; properties := [("mode", VStr "r")];
            __tags := None |} ])%list ∧
    imported w' = imported Scenario.world.
Proof.
  split.
  - destruct (add_a_plugin_declares "b_xml" "reader" (Some "Reader") None
                [("abs_class_path", VStr "b_xml.Writer")] Scenario.world
                scenario_directory) as [Hraise _].
    apply Hraise. reflexivity.
  - destruct (add_a_plugin_declares "b_xml" "reader" (Some "Reader") None
                [("mode", VStr "r")] Scenario.world scenario_directory)
      as [_ Hret].
    destruct (Hret eq_refl) as (w' & Hrun & Hi & Himp & _).
    exists w'. split; [exact Hrun|]. split; [exact Hi|exact Himp].
Defined.

Lemma load_me_now_stops_at_match_witness :
  ∃ w',
    load_me_now Scenario.loader 0 "xml" (Some "a-xml") [] Scenario.world
      = (Ret Scenario.class_a, w') ∧
    (∀ b, b ∉ ([] ++ [0])%list → infos w' !! b = infos Scenario.world !! b) ∧
    (length (new_imports Scenario.world w') ≤ length (@nil nat) + 1)%nat.
Proof.
  apply (load_me_now_stops_at_match Scenario.loader 0 "xml" "a-xml" []
           Scenario.world Scenario.manager [] 0 [1] Scenario.class_a).
  - reflexivity.
  - apply scenario_manager.
  - apply scenario_xml.
  - intros b Hb. by apply elem_of_nil in Hb.
  - apply scenario_resolves_a.
  - reflexivity.
Defined.


Lemma register_a_plugin_per_tag_witness :
  tags Scenario.empty_tagged = [] ∧
  register_a_plugin 0 Scenario.class_a 0 Scenario.empty_tags_world
    = (Ret tt, Scenario.empty_tags_world).
Proof.
  split; [reflexivity|].
  destruct (register_a_plugin_per_tag 0 Scenario.class_a 0 Scenario.empty_tags_world
              Scenario.empty_tagged Scenario.fresh_manager) as [Hnone _].
  - vm_compute. reflexivity.
  - vm_compute. reflexivity.
  - apply Hnone. reflexivity.
Defined.
